(** * Grid / DCA simulation engine of quantum-terminal (src/App.tsx)

    A shallow embedding of [calculateSimulation] and of the two range
    solvers [solveForTargetBE] and [solveForTargetPnL], followed by the
    properties that the design document states about them.

    Numbers.  A JavaScript [number] is modelled by [num]: an exact rational
    in lowest terms, or one of the three special values [PInf], [NInf] and
    [NaN].  Arithmetic on finite values is exact, so rounding error,
    overflow and the sign of zero are abstracted away; the special values
    appear exactly where IEEE arithmetic produces them from exact operands
    (division by zero, [0 * Infinity], [Infinity - Infinity]) and propagate
    as in JavaScript, comparisons with [NaN] being false.

    A property that relates the engine's values to one another through
    the engine's own expressions, or that follows its control flow, does
    not depend on this abstraction.  Where a property is about the values
    themselves, rounding matters: the number of orders of a ladder and
    their lots are such values, and the ladder generator is therefore
    also modelled over binary64 doubles, in [IEEE]. *)

From Stdlib Require Import QArith Qround Qabs ZArith Lia Lqa Bool List String.
From Stdlib Require Import DecimalString Sorted.
From Stdlib Require Qcanon Qpower Floats Uint63.
Import ListNotations.

Open Scope Q_scope.

(** ** JavaScript numbers *)

Module JSNum.

Inductive num : Type :=
| Fin (q : Q)
| PInf
| NInf
| NaN.

(** Finite results are kept in lowest terms, so that equal values are
  equal terms. *)
Definition fin (q : Q) : num := Fin (Qred q).

Definition ofNat (n : nat) : num := Fin (inject_Z (Z.of_nat n)).

Definition infOfSign (c : comparison) : num :=
match c with Gt => PInf | Lt => NInf | Eq => NaN end.

Definition nneg (x : num) : num :=
match x with
| Fin a => fin (- a)
| PInf => NInf
| NInf => PInf
| NaN => NaN
end.

Definition nadd (x y : num) : num :=
match x, y with
| NaN, _ | _, NaN => NaN
| Fin a, Fin b => fin (a + b)
| PInf, NInf | NInf, PInf => NaN
| PInf, _ | _, PInf => PInf
| NInf, _ | _, NInf => NInf
end.

Definition nsub (x y : num) : num :=
match x, y with
| NaN, _ | _, NaN => NaN
| Fin a, Fin b => fin (a - b)
| PInf, PInf | NInf, NInf => NaN
| PInf, _ | _, NInf => PInf
| NInf, _ | _, PInf => NInf
end.

Definition nmul (x y : num) : num :=
match x, y with
| NaN, _ | _, NaN => NaN
| Fin a, Fin b => fin (a * b)
| Fin a, PInf | PInf, Fin a => infOfSign (a ?= 0)
| Fin a, NInf | NInf, Fin a => infOfSign (0 ?= a)
| PInf, PInf | NInf, NInf => PInf
| PInf, NInf | NInf, PInf => NInf
end.

(** [x / y].  A finite non-zero value divided by zero is an infinity of the
  sign of the dividend, [0 / 0] is [NaN]. *)
Definition ndiv (x y : num) : num :=
match x, y with
| NaN, _ | _, NaN => NaN
| Fin a, Fin b =>
    if Qeq_bool b 0 then infOfSign (a ?= 0) else fin (a / b)
| Fin _, PInf | Fin _, NInf => Fin 0
| PInf, Fin b => match b ?= 0 with Lt => NInf | _ => PInf end
| NInf, Fin b => match b ?= 0 with Lt => PInf | _ => NInf end
| _, _ => NaN
end.

Definition nabs (x : num) : num :=
match x with
| Fin a => fin (Qabs a)
| PInf | NInf => PInf
| NaN => NaN
end.

(** [x < y] and [x <= y]: false as soon as one side is [NaN]. *)
Definition nlt (x y : num) : bool :=
match x, y with
| NaN, _ | _, NaN => false
| Fin a, Fin b => match a ?= b with Lt => true | _ => false end
| PInf, _ | _, NInf => false
| NInf, _ | _, PInf => true
end.

Definition nle (x y : num) : bool :=
match x, y with
| NaN, _ | _, NaN => false
| Fin a, Fin b => match a ?= b with Gt => false | _ => true end
| NInf, _ | _, PInf => true
| PInf, _ | _, NInf => false
end.

Definition ngt (x y : num) : bool := nlt y x.

(** Truthiness of a number: [0] and [NaN] are falsy. *)
Definition truthy (x : num) : bool :=
match x with
| Fin a => negb (Qeq_bool a 0)
| NaN => false
| _ => true
end.

Definition isNaN (x : num) : bool :=
match x with NaN => true | _ => false end.

(** [Math.round]: nearest integer, ties towards [+Infinity]. *)
Definition round (x : num) : num :=
match x with
| Fin a => Fin (inject_Z (Qfloor (a + (1 # 2))))
| _ => x
end.

(** [Math.ceil]. *)
Definition ceil (x : num) : num :=
match x with
| Fin a => Fin (inject_Z (Qceiling a))
| _ => x
end.

(** [Math.min] of two arguments. *)
Definition nmin (x y : num) : num :=
match x, y with
| NaN, _ | _, NaN => NaN
| _, _ => if nle x y then x else y
end.

(** [Math.pow x n] for a loop index [n]. *)
Definition pow (x : num) (n : nat) : num :=
match n with
| O => Fin 1
| S _ =>
    match x with
    | Fin a => fin (Qpower a (Z.of_nat n))
    | PInf => PInf
    | NInf => if Nat.even n then PInf else NInf
    | NaN => NaN
    end
end.

(** [parseFloat(x.toFixed(2))]: two decimals, ties away from zero; from
  [1e21] on [toFixed] prints the number itself. *)
Definition toFixed2 (x : num) : num :=
match x with
| Fin a =>
    if Qle_bool (inject_Z (10 ^ 21)) (Qabs a) then x
    else
      let n := Qfloor (Qabs a * 100 + (1 # 2)) in
      match a ?= 0 with
      | Lt => fin (- (inject_Z n / 100))
      | _ => fin (inject_Z n / 100)
      end
| _ => x
end.

Definition isFin (x : num) : Prop :=
match x with Fin _ => True | _ => False end.

End JSNum.

Import JSNum.

Open Scope string_scope.
Open Scope list_scope.
Open Scope Q_scope.

(** String concatenation of template literals. *)
Infix "+++" := String.append (at level 60, right associativity).

(** ** Data model *)

Inductive Direction : Type := LONG | SHORT.

(** The type tag of a candidate order: ['ENTRY' | 'MAIN' | 'DYN']. *)
Inductive OrderType : Type := OrdENTRY | OrdMAIN | OrdDYN.

(** The type tag of a position: ['ENTRY' | 'MAIN' | 'DYN' | 'HEDGE']. *)
Inductive PositionType : Type := ENTRY | MAIN | DYN | HEDGE.

Definition positionType (t : OrderType) : PositionType :=
  match t with OrdENTRY => ENTRY | OrdMAIN => MAIN | OrdDYN => DYN end.

Definition typeName (t : OrderType) : string :=
  match t with OrdENTRY => "ENTRY" | OrdMAIN => "MAIN" | OrdDYN => "DYN" end.

Definition isHEDGE (t : PositionType) : bool :=
  match t with HEDGE => true | _ => false end.

Module Order.
Record t : Type := mk
  { type : OrderType; label : string; price : num; lot : num }.
End Order.

Module Position.
Record t : Type := mk
  { id : string;
    type : PositionType;
    level : string;
    price : num;
    lot : num;
    totalLot : num;
    avgPrice : num;
    dist : num;
    indivPnL : num;
    cumPnL : num }.
End Position.

Module Summary.
Record t : Type := mk
  { slot : nat;
    avgPrice : num;
    pnl : num;
    mainPnL : num;
    hedgePnL : num;
    totalLot : num;
    hedgeLot : num;
    netLot : num;
    rangeCovered : num;
    beDistance : num;
    recoveryGap : num;
    netAvgPrice : num;
    isHedged : bool;
    hedgeTriggerPrice : option num }.
End Summary.

Record SimulationResult : Type :=
  { positions : list Position.t; summary : Summary.t }.

Record HedgeConfig : Type :=
  { enabled : bool; stopLossAmount : num; lotMulti : num; slMulti : num }.

(** ** Helpers *)

Definition normalizeLot (val : num) : num :=
  ndiv (round (nmul val (Fin 100))) (Fin 100).

(** Decimal rendering of a loop index inside a template string. *)
Definition showNat (n : nat) : string :=
  NilEmpty.string_of_uint (Nat.to_uint n).

(** Number of iterations of [for (let i = 0; i < limit; i++)].  The limit
    of the engine's loops is a [Math.min] against 3000, hence never
    [PInf]. *)
Definition iterations (limit : num) : nat :=
  match limit with
  | Fin q => Z.to_nat (Qceiling q)
  | _ => O
  end.

(** [Array.prototype.sort] with a comparator, as a stable insertion sort:
    an element moves behind another only when the comparator is positive. *)
Section Sort.
Context {A : Type} (cmp : A -> A -> num).

Fixpoint insertBy (x : A) (l : list A) : list A :=
  match l with
  | [] => [x]
  | y :: l' =>
      if ngt (cmp x y) (Fin 0) then y :: insertBy x l' else x :: l
  end.

Definition sortBy (l : list A) : list A :=
  fold_right insertBy [] l.
End Sort.

(** The accumulator of the ladder walk. *)
Record Acc : Type :=
  { executedPositions : list Position.t;
    currentTotalLot : num;
    currentTotalCost : num;
    currentAvgPrice : num;
    isHedged : bool;
    hedgeTriggerPrice : num;
    hedgeLot : num;
    hedgeEntryPrice : num }.

Definition nullSimulation : SimulationResult :=
  {| positions := [];
     summary :=
       Summary.mk 0 (Fin 0) (Fin 0) (Fin 0) (Fin 0) (Fin 0) (Fin 0) (Fin 0)
                  (Fin 0) (Fin 0) (Fin 0) (Fin 0) false None |}.

(** ** The calculation engine *)

Section Engine.

Variables (entryPrice maxPrice step initLot multi : num).
Variable direction : Direction.
Variable contractSize : num.
Variable useDynamic : bool.
Variable hedgeConfig : HedgeConfig.
Variable isWinMode : bool.
Variable targetProfit : num.

Definition isLong : bool :=
  match direction with LONG => true | SHORT => false end.

Definition dirMult : num := if isLong then Fin 1 else Fin (-1).

Definition distance : num := nabs (nsub entryPrice maxPrice).
Definition calculatedSteps : num := ceil (ndiv distance step).
Definition safetyLimit : nat := 3000.
Definition loopLimit : num :=
  nmin (nadd calculatedSteps (Fin 10)) (ofNat safetyLimit).

(** Body of the first loop. *)
Definition mainOrder (i : nat) : Order.t :=
  let p := if isLong then nsub entryPrice (nmul (ofNat i) step)
           else nadd entryPrice (nmul (ofNat i) step) in
  let rawLot := if Nat.eqb i 0 then initLot
                else nmul initLot (pow multi i) in
  let l := normalizeLot rawLot in
  let type := if Nat.eqb i 0 then OrdENTRY else OrdMAIN in
  let label := if Nat.eqb i 0 then "ENTRY" else "L-" +++ showNat i in
  Order.mk type label p l.

Definition mainLadder : list Order.t :=
  map mainOrder (seq 0 (iterations loopLimit)).

(** Body of the second loop; [(i + 1.5).toFixed(1)] prints [i + 1]
    followed by [.5]. *)
Definition dynOrder (i : nat) : Order.t :=
  let offset := nadd (nmul (ofNat i) step) (nmul step (Fin 1.5)) in
  let p := if isLong then nsub entryPrice offset
           else nadd entryPrice offset in
  let dynExponent := (i + 2)%nat in
  let rawDynLot := nmul initLot (pow multi dynExponent) in
  let dynLot := normalizeLot rawDynLot in
  Order.mk OrdDYN ("D-" +++ showNat (i + 1) +++ ".5") p dynLot.

Definition dynLadder : list Order.t :=
  map dynOrder (seq 0 (iterations loopLimit)).

Definition byDistance (a b : Order.t) : num :=
  nsub (nabs (nsub entryPrice (Order.price a)))
       (nabs (nsub entryPrice (Order.price b))).

Definition potentialOrders : list Order.t :=
  let generated := mainLadder ++ (if useDynamic then dynLadder else []) in
  let sorted := sortBy byDistance generated in
  if (safetyLimit <? List.length sorted)%nat then firstn safetyLimit sorted
  else sorted.

Definition calcBasketPnL (atPrice avg lots : num) : num :=
  nmul (nmul (nmul (nsub atPrice avg) lots) contractSize) dirMult.

Definition calcSinglePnL (atPrice openPrice lot : num) : num :=
  nmul (nmul (nmul (nsub atPrice openPrice) lot) contractSize) dirMult.

Definition initialAcc : Acc :=
  {| executedPositions := [];
     currentTotalLot := Fin 0;
     currentTotalCost := Fin 0;
     currentAvgPrice := entryPrice;
     isHedged := false;
     hedgeTriggerPrice := Fin 0;
     hedgeLot := Fin 0;
     hedgeEntryPrice := Fin 0 |}.

(** The guard shared by the two hedge checks. *)
Definition hedgeArmed (st : Acc) : bool :=
  enabled hedgeConfig && negb (isHedged st)
  && nlt (stopLossAmount hedgeConfig) (Fin 0)
  && ngt (currentTotalLot st) (Fin 0).

Definition exactTriggerPrice (st : Acc) : num :=
  nadd (currentAvgPrice st)
       (ndiv (stopLossAmount hedgeConfig)
             (nmul (nmul (currentTotalLot st) contractSize) dirMult)).

Definition netAvgPriceOf (avg total hEntry hLot : num) : num :=
  if ngt (nabs (nsub total hLot)) (Fin 0.001)
  then ndiv (nsub (nmul avg total) (nmul hEntry hLot)) (nsub total hLot)
  else Fin 0.

(** The block that opens the hedge; the two checks run the same
    statements and differ in the record's [id]. *)
Definition openHedge (hid : string) (st : Acc) : Acc :=
  let trigger := exactTriggerPrice st in
  let hLot := normalizeLot (nmul (currentTotalLot st) (lotMulti hedgeConfig)) in
  let hedgeIndivPnL :=
    nmul (nmul (nmul (nsub maxPrice trigger) hLot) contractSize)
         (nneg dirMult) in
  let netSignedLot :=
    nadd (nmul (currentTotalLot st) dirMult) (nmul hLot (nneg dirMult)) in
  let netLot := normalizeLot (nabs netSignedLot) in
  let netAvgPrice :=
    netAvgPriceOf (currentAvgPrice st) (currentTotalLot st) trigger hLot in
  {| executedPositions :=
       executedPositions st ++
       [Position.mk hid HEDGE "HEDGE" trigger hLot netLot netAvgPrice
                    (nabs (nsub entryPrice trigger)) hedgeIndivPnL
                    (stopLossAmount hedgeConfig)];
     currentTotalLot := currentTotalLot st;
     currentTotalCost := currentTotalCost st;
     currentAvgPrice := currentAvgPrice st;
     isHedged := true;
     hedgeTriggerPrice := trigger;
     hedgeLot := hLot;
     hedgeEntryPrice := trigger |}.

(** The fill of one candidate order. *)
Definition fill (order : Order.t) (st : Acc) : Acc :=
  let prevLot := currentTotalLot st in
  let total := normalizeLot (nadd prevLot (Order.lot order)) in
  let cost :=
    nadd (currentTotalCost st)
         (nmul (Order.price order) (Order.lot order)) in
  let avg := ndiv cost total in
  let pnlSnapshot := calcBasketPnL (Order.price order) avg total in
  let indivPnL :=
    calcSinglePnL maxPrice (Order.price order) (Order.lot order) in
  {| executedPositions :=
       executedPositions st ++
       [Position.mk (typeName (Order.type order) +++ "-" +++ Order.label order)
                    (positionType (Order.type order)) (Order.label order)
                    (Order.price order) (Order.lot order) total avg
                    (nabs (nsub entryPrice (Order.price order)))
                    indivPnL pnlSnapshot];
     currentTotalLot := total;
     currentTotalCost := cost;
     currentAvgPrice := avg;
     isHedged := isHedged st;
     hedgeTriggerPrice := hedgeTriggerPrice st;
     hedgeLot := hedgeLot st;
     hedgeEntryPrice := hedgeEntryPrice st |}.

Definition beyondBoundary (order : Order.t) : bool :=
  if isLong then nlt (Order.price order) maxPrice
  else ngt (Order.price order) maxPrice.

(** [for (const order of potentialOrders)], with its three exits. *)
Fixpoint walk (orders : list Order.t) (st : Acc) : Acc :=
  match orders with
  | [] => st
  | order :: rest =>
      if beyondBoundary order then st
      else if hedgeArmed st
              && nle (calcBasketPnL (Order.price order) (currentAvgPrice st)
                                    (currentTotalLot st))
                     (stopLossAmount hedgeConfig)
      then openHedge "hedge-trigger" st
      else walk rest (fill order st)
  end.

(** The check after the loop, marked at the boundary price. *)
Definition finalCheck (st : Acc) : Acc :=
  if hedgeArmed st
     && nle (calcBasketPnL maxPrice (currentAvgPrice st) (currentTotalLot st))
            (stopLossAmount hedgeConfig)
  then openHedge "hedge-final" st
  else st.

Definition accumulated : Acc := finalCheck (walk potentialOrders initialAcc).

Definition netAvgPriceFinal (st : Acc) : num :=
  if isHedged st
  then netAvgPriceOf (currentAvgPrice st) (currentTotalLot st)
                     (hedgeEntryPrice st) (hedgeLot st)
  else currentAvgPrice st.

(** Win mode: every position re-marked at the exit price. *)
Definition remark (exitPrice : num) (p : Position.t) : Position.t :=
  let pnl :=
    if isHEDGE (Position.type p)
    then nmul (nmul (nmul (nsub exitPrice (Position.price p)) (Position.lot p))
                    contractSize) (nneg dirMult)
    else nmul (nmul (nmul (nsub exitPrice (Position.price p)) (Position.lot p))
                    contractSize) dirMult in
  Position.mk (Position.id p) (Position.type p) (Position.level p)
              (Position.price p) (Position.lot p) (Position.totalLot p)
              (Position.avgPrice p) (Position.dist p) pnl (Position.cumPnL p).

Definition exitPriceOf (netAvgPrice : num) : num :=
  nadd netAvgPrice (nmul targetProfit dirMult).

Definition sumPnL (hedge : bool) (ps : list Position.t) : num :=
  fold_left
    (fun acc p =>
       if Bool.eqb (isHEDGE (Position.type p)) hedge
       then nadd acc (Position.indivPnL p) else acc)
    ps (Fin 0).

(** The statements after the two checks: net lot and net average, the
    win-mode overlay, the P&L sums and the summary. *)
Definition finalPositionsOf (st : Acc) : list Position.t :=
  if isWinMode
  then map (remark (exitPriceOf (netAvgPriceFinal st)))
           (executedPositions st)
  else executedPositions st.

Definition resultOf (st : Acc) : SimulationResult :=
  let netSignedLot :=
    nadd (nmul (currentTotalLot st) dirMult)
         (if isHedged st then nmul (hedgeLot st) (nneg dirMult)
          else Fin 0) in
  let netLot := normalizeLot (nabs netSignedLot) in
  let netAvgPrice := netAvgPriceFinal st in
  let finalPositions := finalPositionsOf st in
  let finalHedgePnL := sumPnL true finalPositions in
  let finalMainPnL := sumPnL false finalPositions in
  let finalNetPnL := nadd finalMainPnL finalHedgePnL in
  {| positions := finalPositions;
     summary :=
       {| Summary.slot :=
            List.length (filter (fun p => negb (isHEDGE (Position.type p)))
                                finalPositions);
          Summary.avgPrice := currentAvgPrice st;
          Summary.pnl := finalNetPnL;
          Summary.mainPnL := finalMainPnL;
          Summary.hedgePnL := finalHedgePnL;
          Summary.totalLot := currentTotalLot st;
          Summary.hedgeLot := if isHedged st then hedgeLot st else Fin 0;
          Summary.netLot := netLot;
          Summary.rangeCovered := nabs (nsub entryPrice maxPrice);
          Summary.beDistance := nabs (nsub entryPrice (currentAvgPrice st));
          Summary.recoveryGap := nabs (nsub maxPrice netAvgPrice);
          Summary.netAvgPrice := netAvgPrice;
          Summary.isHedged := isHedged st;
          Summary.hedgeTriggerPrice :=
            if isHedged st then Some (hedgeTriggerPrice st) else None |} |}.

Definition calculateSimulation : SimulationResult :=
  if nle step (Fin 0) || nle initLot (Fin 0) || nle contractSize (Fin 0)
  then nullSimulation
  else resultOf accumulated.

End Engine.

(** ** The range solvers

    The solvers are closures of the [App] component: they read its state
    and end with [setRange] and [setMaxPrice].  The state is threaded
    explicitly; only the fields the solvers read or write are kept. *)

Module App.

Record State : Type :=
  { entryPrice : num;
    range : num;
    maxPrice : num;
    direction : Direction;
    step : num;
    initLot : num;
    multi : num;
    contractSize : num;
    useDynamic : bool;
    useHedge : bool;
    hedgeStopLoss : num;
    hedgeLotMulti : num;
    hedgeSlMulti : num }.

Definition setRange (v : num) (s : State) : State :=
  {| entryPrice := entryPrice s; range := v; maxPrice := maxPrice s;
     direction := direction s; step := step s; initLot := initLot s;
     multi := multi s; contractSize := contractSize s;
     useDynamic := useDynamic s; useHedge := useHedge s;
     hedgeStopLoss := hedgeStopLoss s; hedgeLotMulti := hedgeLotMulti s;
     hedgeSlMulti := hedgeSlMulti s |}.

Definition setMaxPrice (v : num) (s : State) : State :=
  {| entryPrice := entryPrice s; range := range s; maxPrice := v;
     direction := direction s; step := step s; initLot := initLot s;
     multi := multi s; contractSize := contractSize s;
     useDynamic := useDynamic s; useHedge := useHedge s;
     hedgeStopLoss := hedgeStopLoss s; hedgeLotMulti := hedgeLotMulti s;
     hedgeSlMulti := hedgeSlMulti s |}.

(** The state the component starts from. *)
Definition initialState : State :=
  {| entryPrice := Fin 2000; range := Fin 50; maxPrice := Fin 1950;
     direction := LONG; step := Fin 10; initLot := Fin 0.01;
     multi := Fin 1.4; contractSize := Fin 100; useDynamic := false;
     useHedge := false; hedgeStopLoss := Fin (-4000);
     hedgeLotMulti := Fin 2; hedgeSlMulti := Fin 2 |}.

Section Solvers.

Variable s : State.

(** The engine run of one bisection round; win mode and target profit
    take their default values. *)
Definition simulateAt (testMax : num) : SimulationResult :=
  calculateSimulation (entryPrice s) testMax (step s) (initLot s)
    (multi s) (direction s) (contractSize s) (useDynamic s)
    {| enabled := useHedge s; stopLossAmount := hedgeStopLoss s;
       lotMulti := hedgeLotMulti s; slMulti := hedgeSlMulti s |}
    false (Fin 0).

Definition testMaxAt (midRange : num) : num :=
  match direction s with
  | LONG => nsub (entryPrice s) midRange
  | SHORT => nadd (entryPrice s) midRange
  end.

(** [for (let i = 0; i < 30; i++)] of [solveForTargetBE]; the result is
    [bestMax] when the loop is left. *)
Fixpoint bisectBE (rounds : nat) (tBE low high bestMax : num) : num :=
  match rounds with
  | O => bestMax
  | S rounds' =>
      let midRange := ndiv (nadd low high) (Fin 2) in
      let testMax := testMaxAt midRange in
      let res := simulateAt testMax in
      let be := if Summary.isHedged (summary res)
                then Summary.netAvgPrice (summary res)
                else Summary.avgPrice (summary res) in
      if nlt (nabs (nsub be tBE)) (Fin 0.5) then testMax
      else
        match direction s with
        | LONG =>
            if ngt be tBE then bisectBE rounds' tBE midRange high bestMax
            else bisectBE rounds' tBE low midRange bestMax
        | SHORT =>
            if nlt be tBE then bisectBE rounds' tBE midRange high bestMax
            else bisectBE rounds' tBE low midRange bestMax
        end
  end.

Fixpoint bisectPnL (rounds : nat) (target low high bestMax : num) : num :=
  match rounds with
  | O => bestMax
  | S rounds' =>
      let midRange := ndiv (nadd low high) (Fin 2) in
      let testMax := testMaxAt midRange in
      let res := simulateAt testMax in
      let pnl := Summary.pnl (summary res) in
      if nlt (nabs (nsub pnl target)) (Fin 10) then testMax
      else if ngt pnl target
           then bisectPnL rounds' target midRange high bestMax
           else bisectPnL rounds' target low midRange bestMax
  end.

(** The two state updates that end both solvers. *)
Definition commit (bestMax : num) : State :=
  let newRange := nabs (nsub (entryPrice s) bestMax) in
  setMaxPrice (toFixed2 bestMax) (setRange (toFixed2 newRange) s).

Definition solveForTargetBE (tBE : num) : State :=
  if negb (truthy tBE) || nle tBE (Fin 0) then s
  else commit (bisectBE 30 tBE (Fin 0.1) (Fin 5000) (maxPrice s)).

Definition solveForTargetPnL (target : num) : State :=
  commit (bisectPnL 30 target (Fin 0.1) (Fin 5000) (maxPrice s)).

End Solvers.

End App.

(** ** The scenarios of the design document *)

Definition hedgeOff : HedgeConfig :=
  {| enabled := false; stopLossAmount := Fin (-4000);
     lotMulti := Fin 2; slMulti := Fin 2 |}.

Definition hedgeAt (stopLoss : num) : HedgeConfig :=
  {| enabled := true; stopLossAmount := stopLoss;
     lotMulti := Fin 2; slMulti := Fin 2 |}.

(** Entry 2000, boundary 1950, step 10, initial lot 0.01, multiplier 1.4,
    LONG, contract size 100, no dynamic ladder, no win mode. *)
Definition scenario (hedgeConfig : HedgeConfig) : SimulationResult :=
  calculateSimulation (Fin 2000) (Fin 1950) (Fin 10) (Fin 0.01) (Fin 1.4)
    LONG (Fin 100) false hedgeConfig false (Fin 0).

Definition scenarioA : SimulationResult := scenario hedgeOff.
Definition scenarioB : SimulationResult := scenario (hedgeAt (Fin (-500))).

(** Scenario B with the stop-loss at -200 instead of -500. *)
Definition scenarioB200 : SimulationResult := scenario (hedgeAt (Fin (-200))).

(** A boundary that lies between the first two rungs: entry 2000, boundary
    1950, step 100, stop-loss -20. *)
Definition scenarioJump : SimulationResult :=
  calculateSimulation (Fin 2000) (Fin 1950) (Fin 100) (Fin 0.01) (Fin 1.4)
    LONG (Fin 100) false (hedgeAt (Fin (-20))) false (Fin 0).

(** A positive initial lot that rounds to zero hundredths: initial lot
    0.004, multiplier 1, otherwise as in scenario A. *)
Definition scenarioZeroLot : SimulationResult :=
  calculateSimulation (Fin 2000) (Fin 1950) (Fin 10) (Fin 0.004) (Fin 1)
    LONG (Fin 100) false hedgeOff false (Fin 0).

Definition hedgeRecords (r : SimulationResult) : list Position.t :=
  filter (fun p => isHEDGE (Position.type p)) (positions r).

Definition filledRecords (r : SimulationResult) : list Position.t :=
  filter (fun p => negb (isHEDGE (Position.type p))) (positions r).

(** ** Vocabulary of the statements *)

(** The fills of a run of candidate orders, one after the other. *)
Definition fillAll (entryPrice maxPrice : num) (direction : Direction)
    (contractSize : num) (filled : list Order.t) (st : Acc) : Acc :=
  fold_left (fun s o => fill entryPrice maxPrice direction contractSize o s)
            filled st.

(** The unrounded sum of [price * lot] over a list of positions. *)
Definition costBasis (ps : list Position.t) : num :=
  fold_left (fun c p => nadd c (nmul (Position.price p) (Position.lot p)))
            ps (Fin 0).

Definition nonHedge (p : Position.t) : Prop :=
  isHEDGE (Position.type p) = false.

(** Two position records that agree on every field but [indivPnL]. *)
Definition sameButIndivPnL (p q : Position.t) : Prop :=
  Position.id q = Position.id p
  /\ Position.type q = Position.type p
  /\ Position.level q = Position.level p
  /\ Position.price q = Position.price p
  /\ Position.lot q = Position.lot p
  /\ Position.totalLot q = Position.totalLot p
  /\ Position.avgPrice q = Position.avgPrice p
  /\ Position.dist q = Position.dist p
  /\ Position.cumPnL q = Position.cumPnL p.

(** A rational rounded to two decimal places, ties upwards. *)
Definition roundHundredths (x : Q) : Q :=
  inject_Z (Qfloor (x * 100 + (1 # 2))) / 100.

(** A candidate order with a finite price and a finite lot. *)
Definition finiteOrder (o : Order.t) : Prop :=
  isFin (Order.price o) /\ isFin (Order.lot o).

(** A basket whose lot and cost are finite and whose average is either the
    seed [e] or the quotient of cost by lot. *)
Definition finiteBasket (e : Q) (st : Acc) : Prop :=
  exists l c,
    currentTotalLot st = Fin l
    /\ currentTotalCost st = Fin c
    /\ (currentAvgPrice st = Fin e
        \/ currentAvgPrice st = ndiv (Fin c) (Fin l)).

(** The conservation check of one prefix [front ++ [p]] of the filled
    positions: [avgPrice * totalLot] of its last position against the cost
    basis of the prefix, within the tolerance [tol]. *)
Definition costBasisConserved (tol : num) (front : list Position.t)
    (p : Position.t) : bool :=
  nle (nabs (nsub (nmul (Position.avgPrice p) (Position.totalLot p))
                  (costBasis (front ++ [p]))))
      tol.

(** The check on every non-empty prefix of [ps], shortest first. *)
Fixpoint conservationChecks (tol : num) (front ps : list Position.t)
    : list bool :=
  match ps with
  | [] => []
  | p :: rest =>
      costBasisConserved tol front p
      :: conservationChecks tol (front ++ [p]) rest
  end.

(** ** The derived figures of the component

    The memoised figures [stats] and [profTgt] and the series of the
    chart read the last simulation result, [null] before the first
    run. *)



Module Dashboard.

Record Stats : Type :=
  { equity : num; ddAmount : num; ddPercent : num }.

Definition stats (simResult : option SimulationResult) (balance : num)
    : Stats :=
  match simResult with
  | None => {| equity := balance; ddAmount := Fin 0; ddPercent := Fin 0 |}
  | Some r =>
      let pnl := Summary.pnl (summary r) in
      let equity := nadd balance pnl in
      let ddAmount := if nlt pnl (Fin 0) then nabs pnl else Fin 0 in
      let ddPercent := nmul (ndiv ddAmount balance) (Fin 100) in
      {| equity := equity; ddAmount := ddAmount; ddPercent := ddPercent |}
  end.



(** The three series of the scatter chart. *)
Definition seriesOf (keep : PositionType -> bool)
    (simResult : option SimulationResult) : list Position.t :=
  match simResult with
  | Some r => filter (fun p => keep (Position.type p)) (positions r)
  | None => []
  end.

Definition mainData : option SimulationResult -> list Position.t :=
  seriesOf (fun t => match t with ENTRY | MAIN => true | _ => false end).

Definition dynData : option SimulationResult -> list Position.t :=
  seriesOf (fun t => match t with DYN => true | _ => false end).

Definition hedgeData : option SimulationResult -> list Position.t :=
  seriesOf (fun t => match t with HEDGE => true | _ => false end).

End Dashboard.

(** ** Vocabulary of the further statements *)

(** What a fill copies from its order into the position it records. *)
Definition recordsOrder (entryPrice maxPrice : num) (direction : Direction)
    (contractSize : num) (o : Order.t) (p : Position.t) : Prop :=
  Position.type p = positionType (Order.type o)
  /\ Position.level p = Order.label o
  /\ Position.price p = Order.price o
  /\ Position.lot p = Order.lot o
  /\ Position.dist p = nabs (nsub entryPrice (Order.price o))
  /\ beyondBoundary maxPrice direction o = false.

(** The running lot of consecutive positions, from the lot [prev] before
    the first of them. *)
Fixpoint lotsChained (prev : num) (ps : list Position.t) : Prop :=
  match ps with
  | [] => True
  | p :: rest =>
      Position.totalLot p = normalizeLot (nadd prev (Position.lot p))
      /\ lotsChained (Position.totalLot p) rest
  end.

(** The distance of a finitely priced order from the finite entry [e]. *)
Definition distQ (e : Q) (o : Order.t) : Q :=
  match Order.price o with
  | Fin p => Qabs (e - p)
  | _ => 0
  end.

(** The objective of the breakeven solver: the net average price of a
    hedged result, the gross average price otherwise. *)
Definition breakevenOf (r : SimulationResult) : num :=
  if Summary.isHedged (summary r) then Summary.netAvgPrice (summary r)
  else Summary.avgPrice (summary r).

(** * The ladder generator over IEEE doubles

    The first loop of [calculateSimulation] and [normalizeLot], computed
    as JavaScript computes them: every [number] is a binary64 double and
    every operation rounds to nearest.  [Math.abs], [Math.ceil],
    [Math.round] and [Math.min] are exact functions of their arguments
    and are defined from the double's sign, mantissa and exponent;
    [Math.pow] is left to the implementation by ECMAScript and is a
    parameter of the ladder. *)

Set Warnings "-inexact-float".

Module IEEE.

Import PrimFloat SpecFloat FloatOps.
Local Open Scope float_scope.

(** The double of an integer below 2^53. *)
Definition ofZ (n : Z) : float := of_uint63 (Uint63.of_Z n).
Definition ofNat (i : nat) : float := ofZ (Z.of_nat i).

Definition Math_abs (x : float) : float := abs x.

(** [Math.ceil]: the least integer not below [x]; [NaN], the infinities,
    the zeros and the integers are returned as they are, and a result 0
    keeps the sign of [x].  A finite nonzero [x] is [m * 2 ^ e], negated
    when [s]. *)
Definition Math_ceil (x : float) : float :=
  match Prim2SF x with
  | S754_finite s m e =>
      if (0 <=? e)%Z then x
      else
        let d := (2 ^ (- e))%Z in
        if s then - ofZ (Z.pos m / d)
        else ofZ (- (- Z.pos m / d))
  | _ => x
  end.

(** [Math.round]: the integer nearest to [x], the one towards
    [+Infinity] on a tie; a result 0 keeps the sign of [x]. *)
Definition Math_round (x : float) : float :=
  match Prim2SF x with
  | S754_finite s m e =>
      if (0 <=? e)%Z then x
      else
        let d := (2 ^ (- e))%Z in
        if s then - ofZ (- ((d - 2 * Z.pos m) / (2 * d)))
        else ofZ ((2 * Z.pos m + d) / (2 * d))
  | _ => x
  end.

(** [Math.min]: [NaN] if either argument is, and [-0] below [+0]. *)
Definition Math_min (a b : float) : float :=
  if is_nan a || is_nan b then nan
  else if a <? b then a
  else if b <? a then b
  else if get_sign a then a else b.

(** The rational number a finite double stands for. *)
Definition toQ (x : float) : option Q :=
  match Prim2SF x with
  | S754_zero _ => Some 0%Q
  | S754_finite s m e =>
      Some ((if s then -1 else 1) * inject_Z (Z.pos m) * 2 ^ e)%Q
  | _ => None
  end.

Definition normalizeLot (val : float) : float :=
  Math_round (val * 100) / 100.

Record Order := mkOrder {
  type : OrderType;
  label : string;
  price : float;
  lot : float
}.

(** [for (let i = 0; i < limit; i++)]: the indices the body runs on.
    The loop of the engine is bounded by [safetyLimit], which is the
    fuel it is given ([Math_min_capped] below). *)
Fixpoint forIndices (fuel i : nat) (limit : float) : list nat :=
  match fuel with
  | O => []
  | S fuel' =>
      if ofNat i <? limit then i :: forIndices fuel' (S i) limit else []
  end.

Section Ladder.

Variable Math_pow : float -> float -> float.
Variables (entryPrice maxPrice step initLot multi : float).
Variable direction : Direction.

Definition isLong : bool :=
  match direction with LONG => true | SHORT => false end.

Definition distance : float := Math_abs (entryPrice - maxPrice).
Definition calculatedSteps : float := Math_ceil (distance / step).
Definition safetyLimit : nat := 3000.
Definition loopLimit : float :=
  Math_min (calculatedSteps + 10) (ofNat safetyLimit).

(** Body of the first loop. *)
Definition mainOrder (i : nat) : Order :=
  let p := if isLong then entryPrice - (ofNat i * step)
           else entryPrice + (ofNat i * step) in
  let rawLot := if Nat.eqb i 0 then initLot
                else initLot * Math_pow multi (ofNat i) in
  let l := normalizeLot rawLot in
  let type := if Nat.eqb i 0 then OrdENTRY else OrdMAIN in
  let label := if Nat.eqb i 0 then "ENTRY" else "L-" +++ showNat i in
  mkOrder type label p l.

Definition mainLadder : list Order :=
  map mainOrder (forIndices safetyLimit 0 loopLimit).

End Ladder.

End IEEE.

(** * Properties *)

(** ** Facts about numbers *)

Lemma nle_Fin (a b : Q) : nle (Fin a) (Fin b) = true <-> a <= b.
Proof.
  unfold nle. rewrite Qle_alt.
  destruct (a ?= b); split; intros; congruence.
Qed.

Lemma nlt_Fin (a b : Q) : nlt (Fin a) (Fin b) = true <-> a < b.
Proof.
  unfold nlt. rewrite Qlt_alt.
  destruct (a ?= b); split; intros; congruence.
Qed.

Lemma fin_ext (a b : Q) : a == b -> fin a = fin b.
Proof.
  intros Hab. unfold fin. f_equal. now apply Qred_complete.
Qed.

Lemma ngt_zero_Fin (l : Q) : ngt (Fin l) (Fin 0) = true <-> 0 < l.
Proof. unfold ngt. apply nlt_Fin. Qed.

Lemma nlt_nan_l (x : num) : nlt NaN x = false.
Proof. reflexivity. Qed.

Lemma ndiv_Fin (a b : Q) : ~ b == 0 -> ndiv (Fin a) (Fin b) = fin (a / b).
Proof.
  intros Hb. unfold ndiv.
  destruct (Qeq_bool b 0) eqn:E; [|reflexivity].
  now apply Qeq_bool_eq in E.
Qed.

Lemma Qeq_refl_eq (x y : Q) : x = y -> x == y.
Proof. intros ->. reflexivity. Qed.

Lemma Qpos_nonzero (q : Q) : 0 < q -> ~ q == 0.
Proof.
  intros Hq Hz. rewrite Hz in Hq. discriminate Hq.
Qed.

Lemma Qred_inject_Z (z : Z) : Qred (inject_Z z) = inject_Z z.
Proof.
  apply Qcanon.Qred_identity. simpl. apply Z.gcd_1_r.
Qed.

Lemma roundHundredths_ext (x y : Q) :
  x == y -> roundHundredths x = roundHundredths y.
Proof.
  intros Hxy. unfold roundHundredths.
  assert (H : Qfloor (x * 100 + (1 # 2)) = Qfloor (y * 100 + (1 # 2))).
  { apply Qfloor_comp. now rewrite Hxy. }
  now rewrite H.
Qed.

(** [normalizeLot] rounds a finite number to hundredths. *)
Lemma normalizeLot_Fin (x : Q) :
  normalizeLot (Fin x) = fin (roundHundredths x).
Proof.
  unfold normalizeLot, nmul, fin, round. rewrite ndiv_Fin by discriminate.
  unfold roundHundredths.
  assert (H : Qfloor (Qred (x * 100) + (1 # 2)) = Qfloor (x * 100 + (1 # 2))).
  { apply Qfloor_comp. now rewrite Qred_correct. }
  now rewrite H.
Qed.

(** ** Facts about the ladder walk *)

Section WalkFacts.

Variables (entryPrice maxPrice : num) (direction : Direction).
Variables (contractSize : num) (hedgeConfig : HedgeConfig).

Local Abbreviation fill_ := (fill entryPrice maxPrice direction contractSize).
Local Abbreviation fillAll_ :=
  (fillAll entryPrice maxPrice direction contractSize).
Local Abbreviation walk_ :=
  (walk entryPrice maxPrice direction contractSize hedgeConfig).
Local Abbreviation openHedge_ :=
  (openHedge entryPrice maxPrice direction contractSize hedgeConfig).
Local Abbreviation finalCheck_ :=
  (finalCheck entryPrice maxPrice direction contractSize hedgeConfig).
Local Abbreviation beyond_ := (beyondBoundary maxPrice direction).
Local Abbreviation pnlAt_ := (calcBasketPnL direction contractSize).
Local Abbreviation stopLoss_ := (stopLossAmount hedgeConfig).

Lemma fillAll_cons (o : Order.t) (os : list Order.t) (st : Acc) :
  fillAll_ (o :: os) st = fillAll_ os (fill_ o st).
Proof. reflexivity. Qed.

Lemma fillAll_snoc (os : list Order.t) (o : Order.t) (st : Acc) :
  fillAll_ (os ++ [o]) st = fill_ o (fillAll_ os st).
Proof. unfold fillAll. now rewrite fold_left_app. Qed.

(** Filling never touches the hedge fields. *)
Lemma fillAll_isHedged (os : list Order.t) (st : Acc) :
  isHedged (fillAll_ os st) = isHedged st.
Proof.
  revert st. induction os as [|o os IH]; intros st; [reflexivity|].
  rewrite fillAll_cons, IH. reflexivity.
Qed.

Lemma fillAll_length (os : list Order.t) (st : Acc) :
  List.length (executedPositions (fillAll_ os st))
  = (List.length (executedPositions st) + List.length os)%nat.
Proof.
  revert st. induction os as [|o os IH]; intros st.
  - simpl. lia.
  - rewrite fillAll_cons, IH. simpl. rewrite length_app. simpl. lia.
Qed.

Lemma fillAll_nonHedge (os : list Order.t) (st : Acc) :
  Forall nonHedge (executedPositions st) ->
  Forall nonHedge (executedPositions (fillAll_ os st)).
Proof.
  revert st. induction os as [|o os IH]; intros st Hst; [exact Hst|].
  rewrite fillAll_cons. apply IH. simpl.
  apply Forall_app. split; [exact Hst|].
  constructor; [|constructor].
  unfold nonHedge. simpl. now destruct (Order.type o).
Qed.

(** The walk fills a prefix of the candidates and then stops for one of
    three reasons: the list is exhausted, the next candidate lies beyond
    the boundary, or the pre-fill check fires on the next candidate. *)
Lemma walk_cases (orders : list Order.t) (st : Acc) :
  exists filled rest,
    orders = filled ++ rest
    /\ ((walk_ orders st = fillAll_ filled st
         /\ (rest = []
             \/ exists o rest', rest = o :: rest' /\ beyond_ o = true))
        \/ (exists o rest',
               rest = o :: rest'
               /\ beyond_ o = false
               /\ hedgeArmed hedgeConfig (fillAll_ filled st) = true
               /\ nle (pnlAt_ (Order.price o)
                              (currentAvgPrice (fillAll_ filled st))
                              (currentTotalLot (fillAll_ filled st)))
                      stopLoss_ = true
               /\ walk_ orders st
                  = openHedge_ "hedge-trigger" (fillAll_ filled st))).
Proof.
  revert st. induction orders as [|o os IH]; intros st.
  - exists [], []. split; [reflexivity|]. left. split; [reflexivity|now left].
  - simpl. destruct (beyond_ o) eqn:Hb.
    + exists [], (o :: os). split; [reflexivity|]. left.
      split; [reflexivity|]. right. now exists o, os.
    + destruct (hedgeArmed hedgeConfig st
                && nle (pnlAt_ (Order.price o) (currentAvgPrice st)
                               (currentTotalLot st)) stopLoss_) eqn:Hh.
      * apply andb_true_iff in Hh. destruct Hh as [Harm Hle].
        exists [], (o :: os). split; [reflexivity|]. right.
        exists o, os. now repeat split.
      * destruct (IH (fill_ o st)) as (filled & rest & Heq & Hcases).
        exists (o :: filled), rest. split; [now rewrite Heq|].
        rewrite fillAll_cons. exact Hcases.
Qed.

End WalkFacts.

(** ** Scenario B *)

(** C1, as stated, fails: with the stop-loss at -500 the hedge does not
    fire, so the four facts the scenario lists cannot hold together. *)
Lemma scenarioB_hedge_does_not_fire :
  ~ (Summary.isHedged (summary scenarioB) = true
     /\ List.length (hedgeRecords scenarioB) = 1%nat
     /\ (exists t, Summary.hedgeTriggerPrice (summary scenarioB) = Some t
                   /\ nlt (Fin 1950) t = true /\ nlt t (Fin 2000) = true)
     /\ Summary.hedgeLot (summary scenarioB)
        = normalizeLot (nmul (Summary.totalLot (summary scenarioB)) (Fin 2))).
Proof.
  intros [Hfired _].
  vm_compute in Hfired.
  discriminate Hfired.
Qed.

(** C1, amended.  With the stop-loss at -500 all six rungs fill, the basket
    loss at the boundary is -250, and the result is not hedged: no HEDGE
    record, no trigger price, hedge lot 0.  With the stop-loss at -200 the
    hedge fires before the sixth rung: one HEDGE record, the trigger price
    21500/11 lies strictly between 1950 and 2000, and the hedge lot is the
    total lot at the trigger (0.11) times 2, rounded to hundredths. *)
Theorem scenarioB_outcome :
  (Summary.isHedged (summary scenarioB) = false
   /\ hedgeRecords scenarioB = []
   /\ Summary.slot (summary scenarioB) = 6%nat
   /\ Summary.pnl (summary scenarioB) = Fin (-250)
   /\ Summary.hedgeTriggerPrice (summary scenarioB) = None
   /\ Summary.hedgeLot (summary scenarioB) = Fin 0)
  /\
  (Summary.isHedged (summary scenarioB200) = true
   /\ List.length (hedgeRecords scenarioB200) = 1%nat
   /\ Summary.slot (summary scenarioB200) = 5%nat
   /\ Summary.hedgeTriggerPrice (summary scenarioB200) = Some (Fin (21500 # 11))
   /\ nlt (Fin 1950) (Fin (21500 # 11)) = true
   /\ nlt (Fin (21500 # 11)) (Fin 2000) = true
   /\ Summary.totalLot (summary scenarioB200) = Fin 0.11
   /\ Summary.hedgeLot (summary scenarioB200)
      = normalizeLot (nmul (Summary.totalLot (summary scenarioB200)) (Fin 2))
   /\ Summary.hedgeLot (summary scenarioB200) = fin 0.22).
Proof.
  split.
  - repeat split; vm_compute; reflexivity.
  - repeat split; vm_compute; reflexivity.
Qed.

(** ** Facts about the accumulation *)

Section AccumulationFacts.

Variables (entryPrice maxPrice step initLot multi : num).
Variable direction : Direction.
Variable contractSize : num.
Variable useDynamic : bool.
Variable hedgeConfig : HedgeConfig.

Local Abbreviation fillAll_ :=
  (fillAll entryPrice maxPrice direction contractSize).
Local Abbreviation openHedge_ :=
  (openHedge entryPrice maxPrice direction contractSize hedgeConfig).
Local Abbreviation beyond_ := (beyondBoundary maxPrice direction).
Local Abbreviation pnlAt_ := (calcBasketPnL direction contractSize).
Local Abbreviation orders_ :=
  (potentialOrders entryPrice maxPrice step initLot multi direction
                   useDynamic).
Local Abbreviation accumulated_ :=
  (accumulated entryPrice maxPrice step initLot multi direction
               contractSize useDynamic hedgeConfig).
Local Abbreviation start_ := (initialAcc entryPrice).

(** Once the hedge is open neither check is armed again. *)
Lemma hedgeArmed_openHedge (hid : string) (st : Acc) :
  hedgeArmed hedgeConfig (openHedge_ hid st) = false.
Proof.
  unfold hedgeArmed. simpl.
  now rewrite andb_false_r.
Qed.

Lemma hedgeArmed_lot (st : Acc) :
  hedgeArmed hedgeConfig st = true ->
  ngt (currentTotalLot st) (Fin 0) = true
  /\ nlt (stopLossAmount hedgeConfig) (Fin 0) = true
  /\ isHedged st = false
  /\ enabled hedgeConfig = true.
Proof.
  unfold hedgeArmed. intros H.
  apply andb_true_iff in H. destruct H as [H Hlot].
  apply andb_true_iff in H. destruct H as [H Hsl].
  apply andb_true_iff in H. destruct H as [Hen Hh].
  apply negb_true_iff in Hh. now repeat split.
Qed.

(** The three ways a simulation's accumulation ends: not hedged, hedged
    by the pre-fill check on the next candidate, or hedged by the final
    check at the boundary.  [base] is the basket at that moment. *)
Lemma accumulated_cases :
  exists filled rest,
    orders_ = filled ++ rest
    /\ (let base := fillAll_ filled start_ in
        (accumulated_ = base /\ isHedged accumulated_ = false)
        \/ (hedgeArmed hedgeConfig base = true
            /\ accumulated_ = openHedge_ "hedge-trigger" base
            /\ exists o rest',
                 rest = o :: rest'
                 /\ beyond_ o = false
                 /\ nle (pnlAt_ (Order.price o) (currentAvgPrice base)
                                (currentTotalLot base))
                        (stopLossAmount hedgeConfig) = true)
        \/ (hedgeArmed hedgeConfig base = true
            /\ accumulated_ = openHedge_ "hedge-final" base
            /\ nle (pnlAt_ maxPrice (currentAvgPrice base)
                           (currentTotalLot base))
                   (stopLossAmount hedgeConfig) = true)).
Proof.
  unfold accumulated.
  destruct (walk_cases entryPrice maxPrice direction contractSize
              hedgeConfig orders_ start_)
    as (filled & rest & Heq & [[Hw _] | (o & rest' & Hr & Hb & Harm & Hle & Hw)]).
  - exists filled, rest. split; [exact Heq|]. cbv zeta.
    rewrite Hw. unfold finalCheck.
    destruct (hedgeArmed hedgeConfig (fillAll_ filled start_)) eqn:Harm;
      simpl.
    + destruct (nle _ _) eqn:Hle.
      * right. right. now repeat split.
      * left. split; [reflexivity|]. now rewrite fillAll_isHedged.
    + left. split; [reflexivity|]. now rewrite fillAll_isHedged.
  - exists filled, rest. split; [exact Heq|]. cbv zeta.
    rewrite Hw. unfold finalCheck. rewrite hedgeArmed_openHedge. simpl.
    right. left. repeat split; try assumption.
    exists o, rest'. now repeat split.
Qed.

(** The basket after a run of fills from the empty basket: either
    nothing was filled, or the running total lot and average are those
    recorded in the last position. *)
Lemma fillAll_basket (filled : list Order.t) :
  let base := fillAll_ filled start_ in
  Forall nonHedge (executedPositions base)
  /\ List.length (executedPositions base) = List.length filled
  /\ ((filled = [] /\ currentTotalLot base = Fin 0)
      \/ exists front p,
           executedPositions base = front ++ [p]
           /\ Position.totalLot p = currentTotalLot base
           /\ Position.avgPrice p = currentAvgPrice base).
Proof.
  cbv zeta. split; [|split].
  - apply fillAll_nonHedge. constructor.
  - now rewrite fillAll_length.
  - destruct filled as [|o os] using rev_ind.
    + left. now split.
    + right. rewrite fillAll_snoc. simpl.
      eexists _, _. split; [reflexivity|]. now split.
Qed.

End AccumulationFacts.

(** ** Facts about the result record *)

Section ResultFacts.

Variables (direction : Direction) (contractSize exitPrice : num).

Local Abbreviation remark_ := (remark direction contractSize exitPrice).

Lemma remark_nonHedge (ps : list Position.t) :
  Forall nonHedge ps -> Forall nonHedge (map remark_ ps).
Proof.
  intros H. apply Forall_map. revert H. apply Forall_impl.
  intros p Hp. exact Hp.
Qed.

Lemma remark_same (ps : list Position.t) :
  Forall2 sameButIndivPnL ps (map remark_ ps).
Proof.
  induction ps as [|p ps IH]; simpl; constructor; [|exact IH].
  unfold sameButIndivPnL. simpl. now repeat split.
Qed.

Lemma same_refl (ps : list Position.t) : Forall2 sameButIndivPnL ps ps.
Proof.
  induction ps as [|p ps IH]; constructor; [|exact IH].
  unfold sameButIndivPnL. now repeat split.
Qed.

Lemma filter_hedge_none (ps : list Position.t) :
  Forall nonHedge ps ->
  filter (fun p => isHEDGE (Position.type p)) ps = [].
Proof.
  induction 1 as [|p ps Hp _ IH]; [reflexivity|].
  simpl. unfold nonHedge in Hp. now rewrite Hp.
Qed.

Lemma filter_hedge_last (ps : list Position.t) (h : Position.t) :
  Forall nonHedge ps -> Position.type h = HEDGE ->
  filter (fun p => isHEDGE (Position.type p)) (ps ++ [h]) = [h].
Proof.
  intros Hps Hh. rewrite filter_app, (filter_hedge_none ps Hps).
  simpl. now rewrite Hh.
Qed.

End ResultFacts.

(** ** Invalid inputs *)

(** C5.  When [step <= 0], [initLot <= 0] or [contractSize <= 0], whatever
    the other inputs, the engine returns the null simulation: no position,
    every numeric summary field 0, not hedged, no trigger price.  The
    engine is a total function, so it never fails. *)
Theorem invalid_input_null_simulation
    (entryPrice maxPrice step initLot multi : num) (direction : Direction)
    (contractSize : num) (useDynamic : bool) (hedgeConfig : HedgeConfig)
    (isWinMode : bool) (targetProfit : num) :
  nle step (Fin 0) = true \/ nle initLot (Fin 0) = true
  \/ nle contractSize (Fin 0) = true ->
  let r := calculateSimulation entryPrice maxPrice step initLot multi
             direction contractSize useDynamic hedgeConfig isWinMode
             targetProfit in
  positions r = []
  /\ Summary.slot (summary r) = 0%nat
  /\ Summary.avgPrice (summary r) = Fin 0
  /\ Summary.pnl (summary r) = Fin 0
  /\ Summary.mainPnL (summary r) = Fin 0
  /\ Summary.hedgePnL (summary r) = Fin 0
  /\ Summary.totalLot (summary r) = Fin 0
  /\ Summary.hedgeLot (summary r) = Fin 0
  /\ Summary.netLot (summary r) = Fin 0
  /\ Summary.rangeCovered (summary r) = Fin 0
  /\ Summary.beDistance (summary r) = Fin 0
  /\ Summary.recoveryGap (summary r) = Fin 0
  /\ Summary.netAvgPrice (summary r) = Fin 0
  /\ Summary.isHedged (summary r) = false
  /\ Summary.hedgeTriggerPrice (summary r) = None.
Proof.
  intros Hinvalid. cbv zeta. unfold calculateSimulation.
  assert (Hguard : nle step (Fin 0) || nle initLot (Fin 0)
                   || nle contractSize (Fin 0) = true).
  { destruct Hinvalid as [H | [H | H]]; rewrite H.
    - reflexivity.
    - now rewrite orb_true_r.
    - now rewrite orb_true_r. }
  rewrite Hguard. simpl. repeat split.
Qed.

Lemma invalid_input_null_simulation_witness :
  (nle (Fin 0) (Fin 0) = true \/ nle (Fin 0.01) (Fin 0) = true
   \/ nle (Fin 100) (Fin 0) = true)
  /\ positions (calculateSimulation (Fin 2000) (Fin 1950) (Fin 0) (Fin 0.01)
                  (Fin 1.4) LONG (Fin 100) true (hedgeAt (Fin (-200))) true
                  (Fin 20)) = [].
Proof.
  split.
  - left. reflexivity.
  - apply (invalid_input_null_simulation (Fin 2000) (Fin 1950) (Fin 0)
             (Fin 0.01) (Fin 1.4) LONG (Fin 100) true (hedgeAt (Fin (-200)))
             true (Fin 20)).
    left. reflexivity.
Defined.

(** ** The hedge record *)

(** Unfolds a run of the engine and splits it along the input guard. *)
Ltac engine_guard :=
  cbv zeta; unfold calculateSimulation;
  match goal with
  | |- context [if ?g then nullSimulation else _] => destruct g eqn:Hguard
  end.

Section HedgeRecord.

Variables (entryPrice maxPrice : num) (direction : Direction).
Variables (contractSize : num) (hedgeConfig : HedgeConfig).
Variables (isWinMode : bool) (targetProfit : num).

Local Abbreviation openHedge_ :=
  (openHedge entryPrice maxPrice direction contractSize hedgeConfig).
Local Abbreviation resultOf_ :=
  (resultOf entryPrice maxPrice direction contractSize isWinMode
            targetProfit).

Lemma finalPositionsOf_nonHedge (st : Acc) :
  Forall nonHedge (executedPositions st) ->
  Forall nonHedge
    (finalPositionsOf direction contractSize isWinMode targetProfit st).
Proof.
  intros H. unfold finalPositionsOf. destruct isWinMode.
  - now apply remark_nonHedge.
  - exact H.
Qed.

(** The result of a basket that was never hedged. *)
Lemma resultOf_unhedged (st : Acc) :
  isHedged st = false -> Forall nonHedge (executedPositions st) ->
  Summary.isHedged (summary (resultOf_ st)) = false
  /\ hedgeRecords (resultOf_ st) = [].
Proof.
  intros Hno Hnon. split; [exact Hno|].
  unfold hedgeRecords. simpl.
  now apply filter_hedge_none, finalPositionsOf_nonHedge.
Qed.

(** The result of a basket [base] on which one of the checks fired. *)
Lemma resultOf_hedged (hid : string) (base : Acc) :
  Forall nonHedge (executedPositions base) ->
  let r := resultOf_ (openHedge_ hid base) in
  Summary.isHedged (summary r) = true
  /\ exists front h,
       positions r = front ++ [h]
       /\ Forall nonHedge front
       /\ Forall2 sameButIndivPnL (executedPositions base) front
       /\ hedgeRecords r = [h]
       /\ Position.id h = hid
       /\ Position.type h = HEDGE
       /\ Position.cumPnL h = stopLossAmount hedgeConfig
       /\ Position.price h
          = exactTriggerPrice direction contractSize hedgeConfig base
       /\ Summary.hedgeTriggerPrice (summary r) = Some (Position.price h).
Proof.
  intros Hnon. cbv zeta. split; [reflexivity|].
  unfold hedgeRecords. simpl. unfold finalPositionsOf. simpl.
  destruct isWinMode.
  - rewrite map_app. simpl. eexists _, _. split; [reflexivity|].
    split; [apply remark_nonHedge, Hnon|].
    split; [apply remark_same|].
    split; [apply filter_hedge_last;
            [apply remark_nonHedge, Hnon|reflexivity]|].
    now repeat split.
  - eexists _, _. split; [reflexivity|].
    split; [exact Hnon|].
    split; [apply same_refl|].
    split; [now apply filter_hedge_last|].
    now repeat split.
Qed.

(** The same result seen from the last fill: the basket of [base] is
    recorded in its last position, and the hedge is priced from it. *)
Lemma resultOf_hedged_basket (hid : string) (base : Acc) :
  Forall nonHedge (executedPositions base) ->
  (exists front0 p,
      executedPositions base = front0 ++ [p]
      /\ Position.totalLot p = currentTotalLot base
      /\ Position.avgPrice p = currentAvgPrice base) ->
  let r := resultOf_ (openHedge_ hid base) in
  exists front last h,
    positions r = front ++ [last; h]
    /\ S (List.length front) = List.length (executedPositions base)
    /\ nonHedge last
    /\ Position.type h = HEDGE
    /\ Position.id h = hid
    /\ Position.avgPrice last = currentAvgPrice base
    /\ Position.totalLot last = currentTotalLot base
    /\ Summary.avgPrice (summary r) = currentAvgPrice base
    /\ Summary.totalLot (summary r) = currentTotalLot base
    /\ Position.price h
       = exactTriggerPrice direction contractSize hedgeConfig base
    /\ Summary.hedgeTriggerPrice (summary r) = Some (Position.price h).
Proof.
  intros Hnon (front0 & p & Hpos & Htot & Havg). cbv zeta.
  destruct (resultOf_hedged hid base Hnon)
    as (_ & front & h & Hr & Hfront & Hsame & _ & Hid & Hty & _ & Hprice
        & Htrig).
  rewrite Hpos in Hsame.
  apply Forall2_app_inv_l in Hsame.
  destruct Hsame as (front' & lastl & Hsame' & Hlast & ->).
  inversion Hlast as [|p0 last l0 l1 Hpl Hnil]; subst.
  inversion Hnil; subst.
  apply Forall_app in Hfront. destruct Hfront as [_ Hlastnon].
  inversion Hlastnon; subst.
  destruct Hpl as (_ & _ & _ & _ & _ & HtotL & HavgL & _).
  exists front', last, h.
  split; [now rewrite Hr, <- app_assoc|].
  split; [rewrite Hpos, !length_app; simpl;
          apply Forall2_length in Hsame'; lia|].
  split; [assumption|]. split; [exact Hty|]. split; [reflexivity|].
  split; [congruence|]. split; [congruence|].
  split; [reflexivity|]. split; [reflexivity|].
  split; [exact Hprice|exact Htrig].
Qed.

End HedgeRecord.

(** C4.  A simulation holds at most one HEDGE record; when [isHedged] the
    record exists, is the last position, and its [cumPnL] is the configured
    [stopLossAmount] itself (so within any tolerance of it), whatever the
    trigger price. *)
Theorem hedge_lock_exact
    (entryPrice maxPrice step initLot multi : num) (direction : Direction)
    (contractSize : num) (useDynamic : bool) (hedgeConfig : HedgeConfig)
    (isWinMode : bool) (targetProfit : num) :
  let r := calculateSimulation entryPrice maxPrice step initLot multi
             direction contractSize useDynamic hedgeConfig isWinMode
             targetProfit in
  (List.length (hedgeRecords r) <= 1)%nat
  /\ (Summary.isHedged (summary r) = false -> hedgeRecords r = [])
  /\ (Summary.isHedged (summary r) = true ->
      exists front h,
        positions r = front ++ [h]
        /\ Forall nonHedge front
        /\ hedgeRecords r = [h]
        /\ Position.type h = HEDGE
        /\ Position.cumPnL h = stopLossAmount hedgeConfig).
Proof.
  engine_guard.
  - simpl. repeat split; [lia | discriminate].
  - destruct (accumulated_cases entryPrice maxPrice step initLot multi
                direction contractSize useDynamic hedgeConfig)
      as (filled & rest & _ & Hcases).
    cbv zeta in Hcases.
    destruct (fillAll_basket entryPrice maxPrice direction contractSize filled)
      as (Hnon & _ & _).
    destruct Hcases as [[Hacc Hno] | [(_ & Hacc & _) | (_ & Hacc & _)]].
    + rewrite Hacc in Hno |- *.
      destruct (resultOf_unhedged entryPrice maxPrice direction contractSize
                  isWinMode targetProfit _ Hno Hnon) as [Hflag Hnone].
      rewrite Hflag, Hnone. simpl. repeat split; [lia | discriminate].
    + rewrite Hacc.
      destruct (resultOf_hedged entryPrice maxPrice direction contractSize
                  hedgeConfig isWinMode targetProfit "hedge-trigger" _ Hnon)
        as (Hflag & front & h & Hpos & Hfront & _ & Hrec & _ & Hty & Hcum & _).
      rewrite Hflag, Hrec. simpl. repeat split; [lia | discriminate |].
      intros _. exists front, h. now repeat split.
    + rewrite Hacc.
      destruct (resultOf_hedged entryPrice maxPrice direction contractSize
                  hedgeConfig isWinMode targetProfit "hedge-final" _ Hnon)
        as (Hflag & front & h & Hpos & Hfront & _ & Hrec & _ & Hty & Hcum & _).
      rewrite Hflag, Hrec. simpl. repeat split; [lia | discriminate |].
      intros _. exists front, h. now repeat split.
Qed.

Lemma hedge_lock_exact_witness :
  Summary.isHedged (summary scenarioB200) = true
  /\ exists front h,
       positions scenarioB200 = front ++ [h]
       /\ Forall nonHedge front
       /\ hedgeRecords scenarioB200 = [h]
       /\ Position.type h = HEDGE
       /\ Position.cumPnL h = Fin (-200).
Proof.
  split.
  - vm_compute. reflexivity.
  - apply (hedge_lock_exact (Fin 2000) (Fin 1950) (Fin 10) (Fin 0.01)
             (Fin 1.4) LONG (Fin 100) false (hedgeAt (Fin (-200))) false
             (Fin 0)).
    vm_compute. reflexivity.
Defined.

(** ** The trigger price *)

(** C3.  When a hedge has triggered, by either check, the basket at the
    moment of crossing is the one recorded in the last filled position
    (and in the summary's [avgPrice] and [totalLot]), and the trigger price
    [avgPrice + stopLossAmount / (totalLot * contractSize * dirMult)] of
    that basket is both the hedge record's price and the summary's
    [hedgeTriggerPrice]. *)
Theorem hedge_trigger_price_formula
    (entryPrice maxPrice step initLot multi : num) (direction : Direction)
    (contractSize : num) (useDynamic : bool) (hedgeConfig : HedgeConfig)
    (isWinMode : bool) (targetProfit : num) :
  let r := calculateSimulation entryPrice maxPrice step initLot multi
             direction contractSize useDynamic hedgeConfig isWinMode
             targetProfit in
  Summary.isHedged (summary r) = true ->
  exists front last h,
    positions r = front ++ [last; h]
    /\ nonHedge last
    /\ Position.type h = HEDGE
    /\ Summary.avgPrice (summary r) = Position.avgPrice last
    /\ Summary.totalLot (summary r) = Position.totalLot last
    /\ (let trigger :=
          nadd (Position.avgPrice last)
               (ndiv (stopLossAmount hedgeConfig)
                     (nmul (nmul (Position.totalLot last) contractSize)
                           (dirMult direction))) in
        Position.price h = trigger
        /\ Summary.hedgeTriggerPrice (summary r) = Some trigger).
Proof.
  engine_guard; [discriminate|].
  destruct (accumulated_cases entryPrice maxPrice step initLot multi
              direction contractSize useDynamic hedgeConfig)
    as (filled & rest & _ & Hcases).
  cbv zeta in Hcases.
  destruct (fillAll_basket entryPrice maxPrice direction contractSize filled)
    as (Hnon & _ & Hbasket).
  assert (Hfilled :
    hedgeArmed hedgeConfig
      (fillAll entryPrice maxPrice direction contractSize filled
         (initialAcc entryPrice)) = true ->
    exists front0 p,
      executedPositions (fillAll entryPrice maxPrice direction contractSize
                           filled (initialAcc entryPrice)) = front0 ++ [p]
      /\ Position.totalLot p
         = currentTotalLot (fillAll entryPrice maxPrice direction
                              contractSize filled (initialAcc entryPrice))
      /\ Position.avgPrice p
         = currentAvgPrice (fillAll entryPrice maxPrice direction
                              contractSize filled (initialAcc entryPrice))).
  { intros Harm. apply hedgeArmed_lot in Harm. destruct Harm as (Hlot & _).
    destruct Hbasket as [[_ Hzero] | Hlast]; [|exact Hlast].
    rewrite Hzero in Hlot. discriminate Hlot. }
  destruct Hcases as [[_ Hno] | [(Harm & Hacc & _) | (Harm & Hacc & _)]].
  - intros Hflag. simpl in Hflag. congruence.
  - intros _. rewrite Hacc.
    destruct (resultOf_hedged_basket entryPrice maxPrice direction
                contractSize hedgeConfig isWinMode targetProfit
                "hedge-trigger" _ Hnon (Hfilled Harm))
      as (front & last & h & Hr & _ & Hlast & Hty & _ & Havg & Htot & Hsa
          & Hst & Hprice & Htrig).
    exists front, last, h. cbv zeta.
    rewrite Hr, Hsa, Hst, Htrig, Hprice, Havg, Htot. now repeat split.
  - intros _. rewrite Hacc.
    destruct (resultOf_hedged_basket entryPrice maxPrice direction
                contractSize hedgeConfig isWinMode targetProfit
                "hedge-final" _ Hnon (Hfilled Harm))
      as (front & last & h & Hr & _ & Hlast & Hty & _ & Havg & Htot & Hsa
          & Hst & Hprice & Htrig).
    exists front, last, h. cbv zeta.
    rewrite Hr, Hsa, Hst, Htrig, Hprice, Havg, Htot. now repeat split.
Qed.

Lemma hedge_trigger_price_formula_witness :
  Summary.isHedged (summary scenarioB200) = true
  /\ exists front last h,
       positions scenarioB200 = front ++ [last; h]
       /\ nonHedge last
       /\ Position.type h = HEDGE
       /\ Summary.avgPrice (summary scenarioB200) = Position.avgPrice last
       /\ Summary.totalLot (summary scenarioB200) = Position.totalLot last
       /\ (let trigger :=
             nadd (Position.avgPrice last)
                  (ndiv (Fin (-200))
                        (nmul (nmul (Position.totalLot last) (Fin 100))
                              (dirMult LONG))) in
           Position.price h = trigger
           /\ Summary.hedgeTriggerPrice (summary scenarioB200)
              = Some trigger).
Proof.
  split.
  - vm_compute. reflexivity.
  - apply (hedge_trigger_price_formula (Fin 2000) (Fin 1950) (Fin 10)
             (Fin 0.01) (Fin 1.4) LONG (Fin 100) false (hedgeAt (Fin (-200)))
             false (Fin 0)).
    vm_compute. reflexivity.
Defined.

(** ** Win mode *)

Lemma filled_count_remark (direction : Direction)
    (contractSize exitPrice : num) (ps : list Position.t) :
  List.length (filter (fun p => negb (isHEDGE (Position.type p)))
                 (map (remark direction contractSize exitPrice) ps))
  = List.length (filter (fun p => negb (isHEDGE (Position.type p))) ps).
Proof.
  induction ps as [|p ps IH]; [reflexivity|].
  simpl. destruct (isHEDGE (Position.type p)); simpl; now rewrite IH.
Qed.

(** C9.  Two runs that differ only in [isWinMode] hold the same positions
    field by field ([cumPnL], [price], [lot], [totalLot], [avgPrice] and
    the rest) except for [indivPnL]; the summaries agree on every field
    but [pnl], [mainPnL] and [hedgePnL].  In the win-mode run every
    [indivPnL] is the position marked at
    [exitPrice = netAvgPrice + targetProfit * dirMult], with [dirMult] for
    the ladder positions and [- dirMult] for the hedge, and the three P&L
    summary fields are the sums of those values. *)
Theorem win_mode_frame
    (entryPrice maxPrice step initLot multi : num) (direction : Direction)
    (contractSize : num) (useDynamic : bool) (hedgeConfig : HedgeConfig)
    (targetProfit : num) :
  let run := calculateSimulation entryPrice maxPrice step initLot multi
               direction contractSize useDynamic hedgeConfig in
  let r0 := run false targetProfit in
  let r1 := run true targetProfit in
  let exitPrice :=
    nadd (Summary.netAvgPrice (summary r1))
         (nmul targetProfit (dirMult direction)) in
  Forall2 sameButIndivPnL (positions r0) (positions r1)
  /\ Forall
       (fun p =>
          Position.indivPnL p
          = nmul (nmul (nmul (nsub exitPrice (Position.price p))
                             (Position.lot p)) contractSize)
                 (if isHEDGE (Position.type p) then nneg (dirMult direction)
                  else dirMult direction))
       (positions r1)
  /\ Summary.mainPnL (summary r1) = sumPnL false (positions r1)
  /\ Summary.hedgePnL (summary r1) = sumPnL true (positions r1)
  /\ Summary.pnl (summary r1)
     = nadd (Summary.mainPnL (summary r1)) (Summary.hedgePnL (summary r1))
  /\ Summary.slot (summary r1) = Summary.slot (summary r0)
  /\ Summary.avgPrice (summary r1) = Summary.avgPrice (summary r0)
  /\ Summary.totalLot (summary r1) = Summary.totalLot (summary r0)
  /\ Summary.hedgeLot (summary r1) = Summary.hedgeLot (summary r0)
  /\ Summary.netLot (summary r1) = Summary.netLot (summary r0)
  /\ Summary.rangeCovered (summary r1) = Summary.rangeCovered (summary r0)
  /\ Summary.beDistance (summary r1) = Summary.beDistance (summary r0)
  /\ Summary.recoveryGap (summary r1) = Summary.recoveryGap (summary r0)
  /\ Summary.netAvgPrice (summary r1) = Summary.netAvgPrice (summary r0)
  /\ Summary.isHedged (summary r1) = Summary.isHedged (summary r0)
  /\ Summary.hedgeTriggerPrice (summary r1)
     = Summary.hedgeTriggerPrice (summary r0).
Proof.
  cbv zeta. unfold calculateSimulation.
  destruct (nle step (Fin 0) || nle initLot (Fin 0)
            || nle contractSize (Fin 0)).
  - simpl. repeat split; constructor.
  - simpl. unfold finalPositionsOf.
    split; [apply remark_same|].
    split.
    { apply Forall_map, Forall_forall. intros p _. simpl.
      unfold exitPriceOf. now destruct (isHEDGE (Position.type p)). }
    split; [reflexivity|]. split; [reflexivity|]. split; [reflexivity|].
    split; [apply filled_count_remark|].
    repeat split.
Qed.

(** ** The main ladder *)

Section LadderInDoubles.

Import PrimFloat.

Lemma SFltb_asym (a b : SpecFloat.spec_float) :
  SpecFloat.SFltb a b = true -> SpecFloat.SFltb b a = false.
Proof.
  unfold SpecFloat.SFltb.
  destruct a as [sa|sa| |sa ma ea], b as [sb|sb| |sb mb eb]; simpl;
    try discriminate; try reflexivity;
    try (destruct sa; discriminate || reflexivity);
    try (destruct sb; discriminate || reflexivity);
    try (destruct sa, sb; discriminate || reflexivity).
  change PosDef.Pos.compare_cont with Pos.compare_cont.
  assert (Hm : Pos.compare_cont Eq mb ma
               = CompOpp (Pos.compare_cont Eq ma mb)).
  { symmetry. apply (Pos.compare_cont_antisym ma mb Eq). }
  rewrite (Z.compare_antisym ea eb), Hm.
  destruct sa, sb; try discriminate; try reflexivity;
    destruct (ea ?= eb)%Z; simpl; try discriminate; try reflexivity;
    destruct (Pos.compare_cont Eq ma mb); simpl;
    discriminate || reflexivity.
Qed.

Lemma ltb_asym (x y : float) : ltb x y = true -> ltb y x = false.
Proof.
  rewrite !FloatAxioms.ltb_spec. apply SFltb_asym.
Qed.

(** [Math.min (x, 3000)] is never above 3000: the loop stops within
    [safetyLimit] iterations. *)
Lemma Math_min_capped (x : float) :
  ltb (IEEE.ofNat IEEE.safetyLimit)
      (IEEE.Math_min x (IEEE.ofNat IEEE.safetyLimit)) = false.
Proof.
  unfold IEEE.Math_min.
  destruct (is_nan x || is_nan _); [reflexivity|].
  destruct (ltb x _) eqn:Hlt; [now apply ltb_asym|].
  destruct (ltb _ x) eqn:Hgt; [reflexivity|].
  destruct (get_sign x); [exact Hgt|reflexivity].
Qed.

(** The loop runs on [i, i + 1, ...], passes its test on each of them,
    and stops on a failed test unless the fuel is used up. *)
Lemma forIndices_spec (limit : float) (fuel i : nat) :
  let l := IEEE.forIndices fuel i limit in
  l = seq i (List.length l)
  /\ (List.length l <= fuel)%nat
  /\ (forall k, In k l -> ltb (IEEE.ofNat k) limit = true)
  /\ ((List.length l < fuel)%nat ->
      ltb (IEEE.ofNat (i + List.length l)) limit = false).
Proof.
  cbv zeta. revert i. induction fuel as [|fuel IH]; intros i; simpl.
  - repeat split; [lia | contradiction | lia].
  - destruct (ltb (IEEE.ofNat i) limit) eqn:Hi; simpl.
    + destruct (IH (S i)) as (Hseq & Hlen & Hin & Hexit).
      split; [now rewrite <- Hseq|].
      split; [lia|].
      split.
      * intros k [<- | Hk]; [exact Hi|now apply Hin].
      * intros Hlt.
        replace (i + S (List.length (IEEE.forIndices fuel (S i) limit)))%nat
          with (S i + List.length (IEEE.forIndices fuel (S i) limit))%nat
          by lia.
        apply Hexit. lia.
    + repeat split; [lia | contradiction |].
      intros _. now rewrite Nat.add_0_r.
Qed.

(** C7, read in exact arithmetic, fails on the code.  With entry 1.1,
    boundary 1.09 and step 0.001 the formula gives
    [min (ceil (0.01 / 0.001) + 10, 3000) = 20], but the doubles give
    [|1.1 - 1.09| / 0.001 = 10.000000000000009], so the code computes
    [N = 21] and generates 21 orders.  Nor is [N] the formula evaluated
    exactly on the doubles that the inputs are: with entry 3, boundary 0
    and step 0.3 the double of 0.3 is below 3/10, the exact quotient is
    above 10 and the formula gives 21, but the rounded quotient is 10 and
    the code computes [N = 20].  The lot of order 0 is rounded like the
    others: it is 0, not [initLot], for [initLot = 0.004]. *)
Lemma main_ladder_count_is_rounded :
  Z.min (Qceiling (Qabs (1.1 - 1.09) / 0.001) + 10) 3000 = 20%Z
  /\ IEEE.loopLimit 1.1 1.09 0.001 = 21%float
  /\ (forall Math_pow,
        List.length
          (IEEE.mainLadder Math_pow 1.1 1.09 0.001 0.01 1.4 LONG)
        = 21%nat)
  /\ (exists e b st,
        IEEE.toQ 3 = Some e /\ IEEE.toQ 0 = Some b
        /\ IEEE.toQ 0.3 = Some st
        /\ Z.min (Qceiling (Qabs (e - b) / st) + 10) 3000 = 21%Z)
  /\ IEEE.loopLimit 3 0 0.3 = 20%float
  /\ (forall Math_pow,
        List.length (IEEE.mainLadder Math_pow 3 0 0.3 0.01 1.4 LONG)
        = 20%nat)
  /\ (forall Math_pow,
        exists o,
          nth_error
            (IEEE.mainLadder Math_pow 2000 1950 10 0.004 1.4 LONG) 0
          = Some o
          /\ IEEE.lot o = 0%float /\ IEEE.lot o <> 0.004%float).
Proof.
  split; [vm_compute; reflexivity|].
  split; [vm_compute; reflexivity|].
  split.
  { intros Math_pow. unfold IEEE.mainLadder. rewrite length_map.
    vm_compute. reflexivity. }
  split.
  { eexists _, _, _. repeat split; vm_compute; reflexivity. }
  split; [vm_compute; reflexivity|].
  split.
  { intros Math_pow. unfold IEEE.mainLadder. rewrite length_map.
    vm_compute. reflexivity. }
  intros Math_pow. eexists. split; [reflexivity|].
  assert (Hlot : IEEE.normalizeLot 0.004 = 0%float)
    by (vm_compute; reflexivity).
  cbn [IEEE.mainOrder IEEE.lot Nat.eqb]. rewrite Hlot.
  split; [reflexivity|].
  intros H. apply (f_equal (fun x => eqb x 0)) in H.
  vm_compute in H. discriminate H.
Qed.

(** C7, amended.  For every input, in the double arithmetic of the
    code and in its order of operations: with
    [N = Math.min (Math.ceil (Math.abs (entry - boundary) / step) + 10,
    3000)], the main ladder holds an order for the indices [0, 1, ...]
    for as long as [i < N] and for no more, never more than 3000; order
    [i] is priced [entry - i * step] (LONG) or [entry + i * step]
    (SHORT), and its lot is [normalizeLot] of [initLot] for [i = 0] and
    of [initLot * Math.pow (multi, i)] otherwise, whatever [Math.pow]
    returns. *)
Theorem main_ladder_in_doubles
    (Math_pow : float -> float -> float)
    (entryPrice maxPrice step initLot multi : float)
    (direction : Direction) :
  let N := IEEE.Math_min
             (add (IEEE.Math_ceil
                     (div (IEEE.Math_abs (sub entryPrice maxPrice)) step))
                  10%float)
             3000%float in
  let ladder := IEEE.mainLadder Math_pow entryPrice maxPrice step initLot
                  multi direction in
  (List.length ladder <= 3000)%nat
  /\ (forall i, (i < List.length ladder)%nat -> ltb (IEEE.ofNat i) N = true)
  /\ ltb (IEEE.ofNat (List.length ladder)) N = false
  /\ forall i, (i < List.length ladder)%nat ->
       nth_error ladder i
       = Some (IEEE.mkOrder
                 (if Nat.eqb i 0 then OrdENTRY else OrdMAIN)
                 (if Nat.eqb i 0 then "ENTRY" else "L-" +++ showNat i)
                 (match direction with
                  | LONG => sub entryPrice (mul (IEEE.ofNat i) step)
                  | SHORT => add entryPrice (mul (IEEE.ofNat i) step)
                  end)
                 (IEEE.normalizeLot
                    (if Nat.eqb i 0 then initLot
                     else mul initLot (Math_pow multi (IEEE.ofNat i))))).
Proof.
  cbv zeta.
  change (IEEE.Math_min _ 3000%float)
    with (IEEE.loopLimit entryPrice maxPrice step).
  set (N := IEEE.loopLimit entryPrice maxPrice step).
  unfold IEEE.mainLadder. fold N.
  destruct (forIndices_spec N IEEE.safetyLimit 0)
    as (Hseq & Hlen & Hin & Hexit).
  rewrite length_map.
  set (n := List.length (IEEE.forIndices IEEE.safetyLimit 0 N)) in *.
  split; [exact Hlen|].
  split.
  { intros i Hi. apply Hin. rewrite Hseq. apply in_seq. lia. }
  split.
  { destruct (Nat.eq_dec n IEEE.safetyLimit) as [Heq | Hne].
    - rewrite Heq. apply Math_min_capped.
    - apply Hexit. unfold IEEE.safetyLimit in *. lia. }
  intros i Hi. rewrite Hseq.
  rewrite (map_nth_error _ i (seq 0 n) (d := i)).
  - unfold IEEE.mainOrder, IEEE.isLong. now destruct direction.
  - rewrite nth_error_seq. apply Nat.ltb_lt in Hi. now rewrite Hi.
Qed.

End LadderInDoubles.

(** ** A boundary on the favourable side of the entry *)

Section SortFacts.

Context {A : Type} (cmp : A -> A -> num) (P : A -> Prop).

Lemma insertBy_Forall (x : A) (l : list A) :
  P x -> Forall P l -> Forall P (insertBy cmp x l).
Proof.
  intros Hx Hl. induction Hl as [|y l Hy Hl IH]; cbn [insertBy].
  - now constructor.
  - destruct (ngt (cmp x y) (Fin 0)).
    + constructor; assumption.
    + constructor; [assumption|]. constructor; assumption.
Qed.

Lemma sortBy_Forall (l : list A) : Forall P l -> Forall P (sortBy cmp l).
Proof.
  induction 1 as [|x l Hx _ IH]; simpl.
  - constructor.
  - now apply insertBy_Forall.
Qed.

Lemma firstn_Forall (n : nat) (l : list A) :
  Forall P l -> Forall P (firstn n l).
Proof.
  intros Hl. revert n. induction Hl as [|x l Hx _ IH]; intros [|n]; simpl;
    try constructor; auto.
Qed.

End SortFacts.

Lemma ofNat_nonneg (i : nat) : 0 <= inject_Z (Z.of_nat i).
Proof.
  change 0 with (inject_Z 0). rewrite <- Zle_Qle. lia.
Qed.

(** With the boundary on the favourable side every candidate order lies
    beyond it. *)
Lemma favourable_orders_beyond (e b st : Q) (initLot multi : num)
    (direction : Direction) (useDynamic : bool) :
  0 < st ->
  match direction with LONG => e < b | SHORT => b < e end ->
  Forall (fun o => beyondBoundary (Fin b) direction o = true)
         (potentialOrders (Fin e) (Fin b) (Fin st) initLot multi direction
                          useDynamic).
Proof.
  intros Hst Hside.
  assert (Hmain : forall n,
    Forall (fun o => beyondBoundary (Fin b) direction o = true)
           (map (mainOrder (Fin e) (Fin st) initLot multi direction)
                (seq 0 n))).
  { intros n. apply Forall_map, Forall_forall. intros i _.
    pose proof (ofNat_nonneg i) as Hi.
    unfold beyondBoundary, mainOrder, ofNat. cbn [Order.price].
    destruct direction; unfold isLong, ngt, nsub, nadd, nmul, fin;
      apply nlt_Fin; rewrite !Qred_correct; nra. }
  assert (Hdyn : forall n,
    Forall (fun o => beyondBoundary (Fin b) direction o = true)
           (map (dynOrder (Fin e) (Fin st) initLot multi direction)
                (seq 0 n))).
  { intros n. apply Forall_map, Forall_forall. intros i _.
    pose proof (ofNat_nonneg i) as Hi.
    unfold beyondBoundary, dynOrder, ofNat. cbn [Order.price].
    assert (H15 : 0 < 1.5) by reflexivity.
    destruct direction; unfold isLong, ngt, nsub, nadd, nmul, fin;
      apply nlt_Fin; rewrite !Qred_correct; nra. }
  unfold potentialOrders.
  match goal with
  | |- context [sortBy ?c ?l] =>
      assert (Hsorted : Forall (fun o => beyondBoundary (Fin b) direction o
                                         = true) (sortBy c l))
  end.
  { apply sortBy_Forall, Forall_app. split; [apply Hmain|].
    destruct useDynamic; [apply Hdyn|constructor]. }
  cbv zeta.
  match goal with
  | |- context [if ?c then _ else _] => destruct c
  end.
  - now apply firstn_Forall.
  - exact Hsorted.
Qed.

Lemma walk_all_beyond (entryPrice maxPrice : num) (direction : Direction)
    (contractSize : num) (hedgeConfig : HedgeConfig)
    (orders : list Order.t) (st : Acc) :
  Forall (fun o => beyondBoundary maxPrice direction o = true) orders ->
  walk entryPrice maxPrice direction contractSize hedgeConfig orders st = st.
Proof.
  intros [|o os Ho _]; [reflexivity|].
  simpl. now rewrite Ho.
Qed.

(** C10.  With finite inputs, positive [step], [initLot] and
    [contractSize], and the boundary strictly on the favourable side of
    the entry, the engine fills no order, and the summary is not the null
    simulation: [avgPrice] and [netAvgPrice] are the entry price (the seed
    of the accumulator), [totalLot] and [beDistance] are 0, and
    [recoveryGap] is [|boundary - entry|]. *)
Theorem favourable_boundary_fills_nothing
    (e b st il cs : Q) (multi : num) (direction : Direction)
    (useDynamic : bool) (hedgeConfig : HedgeConfig) (isWinMode : bool)
    (targetProfit : num) :
  0 < st -> 0 < il -> 0 < cs ->
  match direction with LONG => e < b | SHORT => b < e end ->
  let r := calculateSimulation (Fin e) (Fin b) (Fin st) (Fin il) multi
             direction (Fin cs) useDynamic hedgeConfig isWinMode
             targetProfit in
  positions r = []
  /\ Summary.slot (summary r) = 0%nat
  /\ Summary.avgPrice (summary r) = Fin e
  /\ Summary.netAvgPrice (summary r) = Fin e
  /\ Summary.totalLot (summary r) = Fin 0
  /\ Summary.beDistance (summary r) = Fin 0
  /\ Summary.recoveryGap (summary r) = fin (Qabs (b - e))
  /\ Summary.isHedged (summary r) = false.
Proof.
  intros Hst Hil Hcs Hside. cbv zeta. unfold calculateSimulation.
  assert (Hguard : nle (Fin st) (Fin 0) || nle (Fin il) (Fin 0)
                   || nle (Fin cs) (Fin 0) = false).
  { assert (Hneg : forall q, 0 < q -> nle (Fin q) (Fin 0) = false).
    { intros q Hq. destruct (nle (Fin q) (Fin 0)) eqn:E; [|reflexivity].
      apply nle_Fin in E. lra. }
    now rewrite !Hneg. }
  rewrite Hguard.
  assert (Hacc : accumulated (Fin e) (Fin b) (Fin st) (Fin il) multi
                   direction (Fin cs) useDynamic hedgeConfig
                 = initialAcc (Fin e)).
  { unfold accumulated. rewrite walk_all_beyond.
    - unfold finalCheck, hedgeArmed. simpl. now rewrite andb_false_r.
    - now apply favourable_orders_beyond. }
  rewrite Hacc. unfold resultOf, finalPositionsOf, netAvgPriceFinal.
  cbn [positions summary executedPositions currentAvgPrice currentTotalLot
       isHedged initialAcc map filter List.length
       Summary.slot Summary.avgPrice Summary.netAvgPrice Summary.totalLot
       Summary.beDistance Summary.recoveryGap Summary.isHedged].
  split; [now destruct isWinMode|].
  split; [now destruct isWinMode|].
  repeat split.
  - unfold nsub, nabs, fin. f_equal.
    change 0 with (Qred 0). apply Qred_complete.
    rewrite Qred_correct. setoid_replace (e - e) with 0 by ring.
    reflexivity.
  - unfold nsub, nabs, fin. f_equal. apply Qred_complete.
    now rewrite Qred_correct.
Qed.

Lemma favourable_boundary_fills_nothing_witness :
  0 < 10 /\ 0 < 0.01 /\ 0 < 100 /\ 2000 < 2050
  /\ positions (calculateSimulation (Fin 2000) (Fin 2050) (Fin 10) (Fin 0.01)
                  (Fin 1.4) LONG (Fin 100) true (hedgeAt (Fin (-200))) true
                  (Fin 20)) = [].
Proof.
  repeat (split; [reflexivity|]).
  apply (favourable_boundary_fills_nothing 2000 2050 10 0.01 100 (Fin 1.4)
           LONG true (hedgeAt (Fin (-200))) true (Fin 20)); reflexivity.
Defined.

(** ** The target guards of the solvers *)

(** The run of [solveForTargetPnL] from the initial state of the component
    with its initial target, -5000. *)
Lemma solveForTargetPnL_initial :
  App.solveForTargetPnL App.initialState (Fin (-5000))
  = App.setMaxPrice (Fin (93899 # 50))
      (App.setRange (Fin (6101 # 50)) App.initialState).
Proof. vm_compute. reflexivity. Qed.

(** C6, as stated, fails for [solveForTargetPnL]: the target -5000 is not
    positive, and the solver moves the boundary from 1950 to 1877.98 and
    the range from 50 to 122.02. *)
Lemma solveForTargetPnL_moves_boundary :
  nle (Fin (-5000)) (Fin 0) = true
  /\ ~ (App.range (App.solveForTargetPnL App.initialState (Fin (-5000)))
        = App.range App.initialState
        /\ App.maxPrice (App.solveForTargetPnL App.initialState (Fin (-5000)))
           = App.maxPrice App.initialState).
Proof.
  split; [reflexivity|].
  rewrite solveForTargetPnL_initial. intros [Hrange _].
  discriminate Hrange.
Qed.

(** With a [NaN] target no round of the P&L bisection accepts or narrows
    towards a candidate: the loop ends with [bestMax] untouched. *)
Lemma bisectPnL_NaN (s : App.State) (rounds : nat) (low high bestMax : num) :
  App.bisectPnL s rounds NaN low high bestMax = bestMax.
Proof.
  revert low high. induction rounds as [|k IH]; intros low high;
    [reflexivity|].
  cbn [App.bisectPnL]. cbv zeta.
  assert (Hsub : forall x, nsub x NaN = NaN) by (now intros []).
  rewrite Hsub. cbn [nabs]. rewrite nlt_nan_l.
  unfold ngt. rewrite nlt_nan_l. apply IH.
Qed.

(** C6, amended.  [solveForTargetBE] returns the state unchanged for every
    target that is [<= 0] or [NaN].  [solveForTargetPnL] has no guard on
    its target: it always runs its bisection and commits; for a [NaN]
    target the bisection leaves [bestMax] at the current boundary, which is
    committed again (rounded to two decimals, the range recomputed from
    it).  Both are total functions: no error is signalled. *)
Theorem solver_target_guards (s : App.State) (t : num) :
  nle t (Fin 0) = true \/ isNaN t = true ->
  App.solveForTargetBE s t = s
  /\ App.solveForTargetPnL s t
     = App.commit s (App.bisectPnL s 30 t (Fin 0.1) (Fin 5000)
                       (App.maxPrice s))
  /\ (isNaN t = true ->
      App.solveForTargetPnL s t = App.commit s (App.maxPrice s)).
Proof.
  intros Ht. split; [|split].
  - unfold App.solveForTargetBE. destruct Ht as [Hle | Hnan].
    + rewrite Hle. now rewrite orb_true_r.
    + destruct t; try discriminate Hnan. reflexivity.
  - reflexivity.
  - intros Hnan. destruct t; try discriminate Hnan.
    unfold App.solveForTargetPnL. now rewrite bisectPnL_NaN.
Qed.

Lemma solver_target_guards_witness :
  (nle (Fin (-5000)) (Fin 0) = true \/ isNaN (Fin (-5000)) = true)
  /\ App.solveForTargetBE App.initialState (Fin (-5000)) = App.initialState.
Proof.
  split.
  - left. reflexivity.
  - apply (solver_target_guards App.initialState (Fin (-5000))).
    left. reflexivity.
Defined.

(** ** Finite runs *)

Lemma isFin_inv (x : num) : isFin x -> exists q, x = Fin q.
Proof. destruct x; intros H; try contradiction. now exists q. Qed.

(** Finite inputs generate finite candidate orders. *)
Lemma potentialOrders_finite (e b st il m : Q) (direction : Direction)
    (useDynamic : bool) :
  Forall finiteOrder
         (potentialOrders (Fin e) (Fin b) (Fin st) (Fin il) (Fin m) direction
                          useDynamic).
Proof.
  assert (Hmain : forall n,
    Forall finiteOrder
           (map (mainOrder (Fin e) (Fin st) (Fin il) (Fin m) direction)
                (seq 0 n))).
  { intros n. apply Forall_map, Forall_forall. intros i _.
    unfold finiteOrder, mainOrder, ofNat. cbn [Order.price Order.lot].
    split.
    - destruct direction; exact I.
    - destruct i as [|k]; cbn [Nat.eqb].
      + rewrite normalizeLot_Fin. exact I.
      + unfold pow, nmul, fin. rewrite normalizeLot_Fin. exact I. }
  assert (Hdyn : forall n,
    Forall finiteOrder
           (map (dynOrder (Fin e) (Fin st) (Fin il) (Fin m) direction)
                (seq 0 n))).
  { intros n. apply Forall_map, Forall_forall. intros i _.
    unfold finiteOrder, dynOrder, ofNat. cbn [Order.price Order.lot].
    split.
    - destruct direction; exact I.
    - replace (i + 2)%nat with (S (S i)) by lia.
      unfold pow, nmul, fin. rewrite normalizeLot_Fin. exact I. }
  unfold potentialOrders.
  match goal with
  | |- context [sortBy ?c ?l] =>
      assert (Hsorted : Forall finiteOrder (sortBy c l))
  end.
  { apply sortBy_Forall, Forall_app. split; [apply Hmain|].
    destruct useDynamic; [apply Hdyn|constructor]. }
  cbv zeta.
  match goal with
  | |- context [if ?c then _ else _] => destruct c
  end.
  - now apply firstn_Forall.
  - exact Hsorted.
Qed.

Section FiniteBasket.

Variables (e : Q) (maxPrice : num) (direction : Direction).
Variable contractSize : num.

Local Abbreviation fill_ := (fill (Fin e) maxPrice direction contractSize).
Local Abbreviation fillAll_ :=
  (fillAll (Fin e) maxPrice direction contractSize).

Lemma fill_finite (o : Order.t) (st : Acc) :
  finiteOrder o -> finiteBasket e st -> finiteBasket e (fill_ o st).
Proof.
  intros [Hp Hl] (l & c & Hlot & Hcost & _).
  apply isFin_inv in Hp. destruct Hp as [p Hp].
  apply isFin_inv in Hl. destruct Hl as [ol Hl].
  unfold finiteBasket, fill.
  cbn [currentTotalLot currentTotalCost currentAvgPrice].
  rewrite Hlot, Hcost, Hp, Hl.
  unfold nadd, nmul, fin. rewrite normalizeLot_Fin.
  eexists _, _. split; [reflexivity|]. split; [reflexivity|].
  right. reflexivity.
Qed.

Lemma fillAll_finite (os : list Order.t) (st : Acc) :
  Forall finiteOrder os -> finiteBasket e st -> finiteBasket e (fillAll_ os st).
Proof.
  intros Hos. revert st. induction Hos as [|o os Ho _ IH]; intros st Hst.
  - exact Hst.
  - rewrite fillAll_cons. apply IH. now apply fill_finite.
Qed.

Lemma initialAcc_finite : finiteBasket e (initialAcc (Fin e)).
Proof.
  exists 0, 0. split; [reflexivity|]. split; [reflexivity|]. now left.
Qed.

End FiniteBasket.

(** ** The hedge price and the price of detection *)

(** C2, as stated, fails for both checks.  In scenario B with the
    stop-loss at -200 the pre-fill check fires on the sixth candidate,
    priced 1950, and the hedge is recorded at 21500/11; with the boundary
    1950 between two rungs the final check fires and the hedge is
    recorded at 1980, not at the boundary.  In both runs the hedge is the
    last record. *)
Lemma hedge_price_is_not_detection_price :
  (exists h o,
      List.length (positions scenarioB200) = 6%nat
      /\ nth_error (positions scenarioB200) 5 = Some h
      /\ Position.id h = "hedge-trigger"
      /\ nth_error (potentialOrders (Fin 2000) (Fin 1950) (Fin 10) (Fin 0.01)
                      (Fin 1.4) LONG false) 5 = Some o
      /\ Order.price o = Fin 1950
      /\ Position.price h = Fin (21500 # 11)
      /\ Position.price h <> Order.price o
      /\ Summary.hedgeTriggerPrice (summary scenarioB200)
         <> Some (Order.price o))
  /\ (exists h,
         List.length (positions scenarioJump) = 2%nat
         /\ nth_error (positions scenarioJump) 1 = Some h
         /\ Position.id h = "hedge-final"
         /\ Position.price h = Fin 1980
         /\ Position.price h <> Fin 1950
         /\ Summary.hedgeTriggerPrice (summary scenarioJump)
            <> Some (Fin 1950)).
Proof.
  split.
  - eexists _, _.
    split; [vm_compute; reflexivity|].
    split; [vm_compute; reflexivity|].
    split; [reflexivity|].
    split; [vm_compute; reflexivity|].
    split; [reflexivity|].
    split; [reflexivity|].
    split; [discriminate|].
    vm_compute. discriminate.
  - eexists.
    split; [vm_compute; reflexivity|].
    split; [vm_compute; reflexivity|].
    split; [reflexivity|].
    split; [reflexivity|].
    split; [discriminate|].
    vm_compute. discriminate.
Qed.

(** C2, amended.  Whenever the hedge triggers, the recorded price of the
    hedge position (also [hedgeTriggerPrice]) is not the price at which
    the crossing was detected but the trigger price
    [avgPrice + stopLossAmount / (totalLot * contractSize * dirMult)] of
    the basket.  The price of detection is only where the check fired:
    for the pre-fill check (id "hedge-trigger") it is the price of the
    first candidate order that was not filled, a candidate within the
    boundary at which the basket P&L is at or below [stopLossAmount];
    for the final check (id "hedge-final") it is the boundary price, at
    which the basket P&L is at or below [stopLossAmount]. *)
Theorem hedge_price_is_basket_trigger_price
    (entryPrice maxPrice step initLot multi : num) (direction : Direction)
    (contractSize : num) (useDynamic : bool) (hedgeConfig : HedgeConfig)
    (isWinMode : bool) (targetProfit : num) :
  let r := calculateSimulation entryPrice maxPrice step initLot multi
             direction contractSize useDynamic hedgeConfig isWinMode
             targetProfit in
  let orders := potentialOrders entryPrice maxPrice step initLot multi
                  direction useDynamic in
  let avg := Summary.avgPrice (summary r) in
  let lot := Summary.totalLot (summary r) in
  let sl := stopLossAmount hedgeConfig in
  Summary.isHedged (summary r) = true ->
  exists front h,
    positions r = front ++ [h]
    /\ Forall nonHedge front
    /\ Position.type h = HEDGE
    /\ Position.price h
       = nadd avg (ndiv sl (nmul (nmul lot contractSize)
                                 (dirMult direction)))
    /\ Summary.hedgeTriggerPrice (summary r) = Some (Position.price h)
    /\ ((Position.id h = "hedge-trigger"
         /\ exists o,
              nth_error orders (List.length front) = Some o
              /\ beyondBoundary maxPrice direction o = false
              /\ nle (calcBasketPnL direction contractSize (Order.price o)
                        avg lot) sl = true)
        \/ (Position.id h = "hedge-final"
            /\ nle (calcBasketPnL direction contractSize maxPrice avg lot)
                   sl = true)).
Proof.
  engine_guard; [discriminate|].
  destruct (accumulated_cases entryPrice maxPrice step initLot multi
              direction contractSize useDynamic hedgeConfig)
    as (filled & rest & Heq & Hcases).
  cbv zeta in Hcases.
  destruct (fillAll_basket entryPrice maxPrice direction contractSize filled)
    as (Hnon & Hlen & Hbasket).
  set (base := fillAll entryPrice maxPrice direction contractSize filled
                 (initialAcc entryPrice)) in *.
  assert (Hrecord : forall hid,
    hedgeArmed hedgeConfig base = true ->
    let r := resultOf entryPrice maxPrice direction contractSize isWinMode
               targetProfit
               (openHedge entryPrice maxPrice direction contractSize
                  hedgeConfig hid base) in
    exists front h,
      positions r = front ++ [h]
      /\ List.length front = List.length filled
      /\ Forall nonHedge front
      /\ Position.type h = HEDGE
      /\ Position.id h = hid
      /\ Summary.avgPrice (summary r) = currentAvgPrice base
      /\ Summary.totalLot (summary r) = currentTotalLot base
      /\ Position.price h
         = exactTriggerPrice direction contractSize hedgeConfig base
      /\ Summary.hedgeTriggerPrice (summary r) = Some (Position.price h)).
  { intros hid Harm. cbv zeta.
    destruct (resultOf_hedged entryPrice maxPrice direction contractSize
                hedgeConfig isWinMode targetProfit hid base Hnon)
      as (_ & front & h & Hr & Hfront & Hsame & _ & Hid & Hty & _ & Hp
          & Htrig).
    exists front, h.
    split; [exact Hr|].
    split; [apply Forall2_length in Hsame; congruence|].
    now repeat split. }
  destruct Hcases as [[_ Hno] | [(Harm & Hacc & Hcand) | (Harm & Hacc & Hle)]].
  - intros Hflag. simpl in Hflag. congruence.
  - intros _. rewrite Hacc.
    destruct (Hrecord "hedge-trigger" Harm)
      as (front & h & Hr & Hfl & Hfront & Hty & Hid & Havg & Hlot & Hp
          & Htrig).
    destruct Hcand as (o & rest' & Hrest & Hb & Hle).
    exists front, h. rewrite Havg, Hlot.
    split; [exact Hr|]. split; [exact Hfront|]. split; [exact Hty|].
    split; [exact Hp|]. split; [exact Htrig|].
    left. split; [exact Hid|]. exists o.
    split; [|now split].
    rewrite Heq, Hrest, Hfl, nth_error_app2 by lia.
    now rewrite Nat.sub_diag.
  - intros _. rewrite Hacc.
    destruct (Hrecord "hedge-final" Harm)
      as (front & h & Hr & Hfl & Hfront & Hty & Hid & Havg & Hlot & Hp
          & Htrig).
    exists front, h. rewrite Havg, Hlot.
    split; [exact Hr|]. split; [exact Hfront|]. split; [exact Hty|].
    split; [exact Hp|]. split; [exact Htrig|].
    right. now split.
Qed.

Lemma hedge_price_is_basket_trigger_price_witness :
  Summary.isHedged (summary scenarioJump) = true
  /\ exists front h,
       positions scenarioJump = front ++ [h]
       /\ Forall nonHedge front
       /\ Position.type h = HEDGE
       /\ Position.price h
          = nadd (Summary.avgPrice (summary scenarioJump))
                 (ndiv (Fin (-20))
                       (nmul (nmul (Summary.totalLot (summary scenarioJump))
                                   (Fin 100))
                             (dirMult LONG)))
       /\ Summary.hedgeTriggerPrice (summary scenarioJump)
          = Some (Position.price h)
       /\ ((Position.id h = "hedge-trigger"
            /\ exists o,
                 nth_error (potentialOrders (Fin 2000) (Fin 1950) (Fin 100)
                              (Fin 0.01) (Fin 1.4) LONG false)
                           (List.length front) = Some o
                 /\ beyondBoundary (Fin 1950) LONG o = false
                 /\ nle (calcBasketPnL LONG (Fin 100) (Order.price o)
                           (Summary.avgPrice (summary scenarioJump))
                           (Summary.totalLot (summary scenarioJump)))
                        (Fin (-20)) = true)
           \/ (Position.id h = "hedge-final"
               /\ nle (calcBasketPnL LONG (Fin 100) (Fin 1950)
                         (Summary.avgPrice (summary scenarioJump))
                         (Summary.totalLot (summary scenarioJump)))
                      (Fin (-20)) = true)).
Proof.
  split.
  - vm_compute. reflexivity.
  - apply (hedge_price_is_basket_trigger_price (Fin 2000) (Fin 1950)
             (Fin 100) (Fin 0.01) (Fin 1.4) LONG (Fin 100) false
             (hedgeAt (Fin (-20))) false (Fin 0)).
    vm_compute. reflexivity.
Defined.

(** ** Cost-basis conservation *)

(** C8 at a valid input on which it fails.  The initial lot 0.004 is
    positive and passes the input guard, but [normalizeLot] rounds every
    lot of the ladder to 0: six orders are filled, each leaves the total
    lot at 0 and the average price at [0 / 0 = NaN], so on every prefix
    [avgPrice * totalLot] is [NaN] while the cost basis is 0, and the
    conservation check within 1e-6 fails. *)
Theorem zero_lot_breaks_conservation :
  nle (Fin 0.004) (Fin 0) = false
  /\ map Position.lot (filledRecords scenarioZeroLot)
     = [Fin 0; Fin 0; Fin 0; Fin 0; Fin 0; Fin 0]
  /\ map Position.totalLot (filledRecords scenarioZeroLot)
     = [Fin 0; Fin 0; Fin 0; Fin 0; Fin 0; Fin 0]
  /\ map Position.avgPrice (filledRecords scenarioZeroLot)
     = [NaN; NaN; NaN; NaN; NaN; NaN]
  /\ map (fun p => nmul (Position.avgPrice p) (Position.totalLot p))
         (filledRecords scenarioZeroLot)
     = [NaN; NaN; NaN; NaN; NaN; NaN]
  /\ costBasis (filledRecords scenarioZeroLot) = Fin 0
  /\ conservationChecks (Fin (1 # 1000000)) [] (filledRecords scenarioZeroLot)
     = [false; false; false; false; false; false]
  /\ Summary.avgPrice (summary scenarioZeroLot) = NaN.
Proof.
  repeat split; vm_compute; reflexivity.
Qed.

Lemma costBasis_snoc (ps : list Position.t) (p : Position.t) :
  costBasis (ps ++ [p])
  = nadd (costBasis ps) (nmul (Position.price p) (Position.lot p)).
Proof. unfold costBasis. now rewrite fold_left_app. Qed.

(** The cost basis reads prices and lots only. *)
Lemma costBasis_same (ps qs : list Position.t) :
  Forall2 sameButIndivPnL ps qs -> costBasis qs = costBasis ps.
Proof.
  unfold costBasis. generalize (Fin 0).
  intros c H. revert c.
  induction H as [|p q ps qs (_ & _ & _ & Hp & Hl & _) _ IH]; intros c.
  - reflexivity.
  - simpl. rewrite Hp, Hl. apply IH.
Qed.

(** A canonical finite value that is not the term [Fin 0] is not zero. *)
Lemma fin_nonzero (q : Q) : fin q <> Fin 0 -> ~ q == 0.
Proof.
  intros Hne Hz. apply Hne. unfold fin. f_equal.
  change 0 with (Qred 0). now apply Qred_complete.
Qed.

(** Dividing a finite cost by a non-zero finite lot and multiplying back
    gives the cost again, exactly. *)
Lemma ndiv_nmul_cancel (c l : Q) :
  fin l <> Fin 0 -> nmul (ndiv (fin c) (fin l)) (fin l) = fin c.
Proof.
  intros Hne. apply fin_nonzero in Hne.
  unfold fin at 1 2. rewrite ndiv_Fin by now rewrite Qred_correct.
  unfold fin at 1 2. unfold nmul. apply fin_ext.
  rewrite !Qred_correct. field. exact Hne.
Qed.

Section CostBasis.

Variables (e : Q) (maxPrice : num) (direction : Direction).
Variable contractSize : num.

Local Abbreviation fillAll_ :=
  (fillAll (Fin e) maxPrice direction contractSize).

(** After a run of fills of finite orders from the empty basket, the
    running cost is the cost basis of the positions, and every position
    records the quotient of the cost basis of its prefix by its total lot,
    both finite. *)
Lemma fillAll_records (filled : list Order.t) :
  Forall finiteOrder filled ->
  let base := fillAll_ filled (initialAcc (Fin e)) in
  currentTotalCost base = costBasis (executedPositions base)
  /\ forall front p back,
       executedPositions base = front ++ p :: back ->
       Position.avgPrice p
       = ndiv (costBasis (front ++ [p])) (Position.totalLot p)
       /\ (exists l, Position.totalLot p = fin l)
       /\ (exists c, costBasis (front ++ [p]) = fin c).
Proof.
  cbv zeta. induction filled as [|o os IH] using rev_ind; intros Hfin.
  - split; [reflexivity|].
    intros front p back H. now destruct front.
  - apply Forall_app in Hfin. destruct Hfin as [Hos Ho].
    inversion Ho as [|o' l' [Hp Hl] _]; subst o' l'.
    destruct (IH Hos) as [Hcost Hrec].
    pose proof (fillAll_finite e maxPrice direction contractSize os _ Hos
                  (initialAcc_finite e)) as (l & c & Hlot & Hc & _).
    apply isFin_inv in Hp. destruct Hp as [op Hop].
    apply isFin_inv in Hl. destruct Hl as [ol Hol].
    rewrite fillAll_snoc.
    set (st := fillAll_ os (initialAcc (Fin e))) in *.
    assert (Hnew : costBasis (executedPositions
                     (fill (Fin e) maxPrice direction contractSize o st))
                   = nadd (currentTotalCost st)
                          (nmul (Order.price o) (Order.lot o))).
    { unfold fill. cbn [executedPositions]. rewrite costBasis_snoc.
      cbn [Position.price Position.lot]. now rewrite Hcost. }
    split.
    + rewrite Hnew. reflexivity.
    + intros front p back Hdec.
      destruct back as [|x back' _] using rev_ind.
      * unfold fill in Hdec, Hnew. cbn [executedPositions] in Hdec, Hnew.
        apply app_inj_tail in Hdec. destruct Hdec as [Hfront Hpos].
        rewrite <- Hfront, <- Hpos, Hnew.
        cbn [Position.avgPrice Position.totalLot].
        split; [reflexivity|].
        rewrite Hlot, Hc, Hop, Hol. unfold nadd, nmul, fin.
        rewrite normalizeLot_Fin. split; eexists; reflexivity.
      * unfold fill in Hdec. cbn [executedPositions] in Hdec.
        rewrite app_comm_cons, app_assoc in Hdec.
        apply app_inj_tail in Hdec. destruct Hdec as [Hps _].
        apply (Hrec front p back'). now rewrite Hps.
Qed.

End CostBasis.

Lemma filter_filled_all (ps : list Position.t) :
  Forall nonHedge ps ->
  filter (fun p => negb (isHEDGE (Position.type p))) ps = ps.
Proof.
  induction 1 as [|p ps Hp _ IH]; [reflexivity|].
  simpl. unfold nonHedge in Hp. now rewrite Hp, IH.
Qed.

Lemma filter_filled_last (ps : list Position.t) (h : Position.t) :
  Forall nonHedge ps -> Position.type h = HEDGE ->
  filter (fun p => negb (isHEDGE (Position.type p))) (ps ++ [h]) = ps.
Proof.
  intros Hps Hh. rewrite filter_app, (filter_filled_all ps Hps).
  simpl. rewrite Hh. simpl. apply app_nil_r.
Qed.

(** The filled records of a result are the positions of the basket on
    which the accumulation ended, up to [indivPnL]. *)
Lemma filledRecords_of_basket
    (entryPrice maxPrice step initLot multi : num) (direction : Direction)
    (contractSize : num) (useDynamic : bool) (hedgeConfig : HedgeConfig)
    (isWinMode : bool) (targetProfit : num) :
  exists filled rest,
    potentialOrders entryPrice maxPrice step initLot multi direction
                    useDynamic = filled ++ rest
    /\ Forall2 sameButIndivPnL
         (executedPositions
            (fillAll entryPrice maxPrice direction contractSize filled
                     (initialAcc entryPrice)))
         (filledRecords
            (resultOf entryPrice maxPrice direction contractSize isWinMode
               targetProfit
               (accumulated entryPrice maxPrice step initLot multi direction
                  contractSize useDynamic hedgeConfig))).
Proof.
  destruct (accumulated_cases entryPrice maxPrice step initLot multi
              direction contractSize useDynamic hedgeConfig)
    as (filled & rest & Heq & Hcases).
  cbv zeta in Hcases.
  destruct (fillAll_basket entryPrice maxPrice direction contractSize filled)
    as (Hnon & _ & _).
  exists filled, rest. split; [exact Heq|].
  assert (Hhedged : forall hid,
    Forall2 sameButIndivPnL
      (executedPositions
         (fillAll entryPrice maxPrice direction contractSize filled
                  (initialAcc entryPrice)))
      (filledRecords
         (resultOf entryPrice maxPrice direction contractSize isWinMode
            targetProfit
            (openHedge entryPrice maxPrice direction contractSize hedgeConfig
               hid
               (fillAll entryPrice maxPrice direction contractSize filled
                        (initialAcc entryPrice)))))).
  { intros hid.
    destruct (resultOf_hedged entryPrice maxPrice direction contractSize
                hedgeConfig isWinMode targetProfit hid _ Hnon)
      as (_ & front & h & Hr & Hfront & Hsame & _ & _ & Hty & _).
    unfold filledRecords. rewrite Hr.
    now rewrite filter_filled_last. }
  destruct Hcases as [[Hacc _] | [(_ & Hacc & _) | (_ & Hacc & _)]];
    rewrite Hacc; [|apply Hhedged|apply Hhedged].
  unfold filledRecords. cbn [positions resultOf].
  rewrite filter_filled_all by now apply finalPositionsOf_nonHedge.
  unfold finalPositionsOf. destruct isWinMode.
  - apply remark_same.
  - apply same_refl.
Qed.

(** C8 where it holds.  For finite inputs, every prefix [front ++ [p]] of
    the filled non-hedge positions satisfies
    [avgPrice p = costBasis / totalLot p], the cost basis being the
    unrounded sum of [price * lot] over the prefix; and whenever that
    total lot is not 0, [avgPrice p * totalLot p] is the cost basis
    exactly. *)
Theorem cost_basis_conservation
    (e b st il m : Q) (direction : Direction) (contractSize : num)
    (useDynamic : bool) (hedgeConfig : HedgeConfig) (isWinMode : bool)
    (targetProfit : num) :
  let r := calculateSimulation (Fin e) (Fin b) (Fin st) (Fin il) (Fin m)
             direction contractSize useDynamic hedgeConfig isWinMode
             targetProfit in
  forall front p back,
    filledRecords r = front ++ p :: back ->
    Position.avgPrice p
    = ndiv (costBasis (front ++ [p])) (Position.totalLot p)
    /\ (Position.totalLot p <> Fin 0 ->
        nmul (Position.avgPrice p) (Position.totalLot p)
        = costBasis (front ++ [p])).
Proof.
  engine_guard.
  - intros front p back H. now destruct front.
  - intros front p back Hdec.
    destruct (filledRecords_of_basket (Fin e) (Fin b) (Fin st) (Fin il)
                (Fin m) direction contractSize useDynamic hedgeConfig
                isWinMode targetProfit)
      as (filled & rest & Heq & Hsame).
    rewrite Hdec in Hsame.
    apply Forall2_app_inv_r in Hsame.
    destruct Hsame as (front0 & tail0 & Hfront & Htail & Hps).
    inversion Htail as [|p0 p' back0 back' Hp Hback]; subst.
    pose proof (potentialOrders_finite e b st il m direction useDynamic)
      as Hfin.
    rewrite Heq in Hfin. apply Forall_app in Hfin.
    destruct Hfin as [Hfilled _].
    destruct (fillAll_records e (Fin b) direction contractSize filled Hfilled)
      as [_ Hrec].
    destruct (Hrec front0 p0 back0 Hps) as (Havg & [l Hl] & [c Hc]).
    assert (Hcb : costBasis (front ++ [p]) = costBasis (front0 ++ [p0])).
    { apply costBasis_same, Forall2_app; [exact Hfront|].
      constructor; [exact Hp|constructor]. }
    destruct Hp as (_ & _ & _ & _ & _ & Htot & Hav & _).
    rewrite Hcb, Hav, Htot, Havg.
    split; [reflexivity|].
    rewrite Hc, Hl. apply ndiv_nmul_cancel.
Qed.

Lemma cost_basis_conservation_witness :
  (exists front p back,
      filledRecords scenarioA = front ++ p :: back
      /\ Position.totalLot p <> Fin 0)
  /\ forall front p back,
       filledRecords scenarioA = front ++ p :: back ->
       Position.avgPrice p
       = ndiv (costBasis (front ++ [p])) (Position.totalLot p)
       /\ (Position.totalLot p <> Fin 0 ->
           nmul (Position.avgPrice p) (Position.totalLot p)
           = costBasis (front ++ [p])).
Proof.
  split.
  - exists [], (hd (Position.mk "" HEDGE "" NaN NaN NaN NaN NaN NaN NaN)
                   (filledRecords scenarioA)),
           (tl (filledRecords scenarioA)).
    split; [vm_compute; reflexivity|]. vm_compute. discriminate.
  - exact (cost_basis_conservation 2000 1950 10 0.01 1.4 LONG (Fin 100) false
             hedgeOff false (Fin 0)).
Defined.

(** * Further properties of the engine *)

(** ** The trace of a run *)

Section Trace.

Variables (entryPrice maxPrice step initLot multi : num).
Variable direction : Direction.
Variable contractSize : num.
Variable useDynamic : bool.
Variable hedgeConfig : HedgeConfig.
Variables (isWinMode : bool) (targetProfit : num).

Local Abbreviation fill_ := (fill entryPrice maxPrice direction contractSize).
Local Abbreviation fillAll_ :=
  (fillAll entryPrice maxPrice direction contractSize).
Local Abbreviation walk_ :=
  (walk entryPrice maxPrice direction contractSize hedgeConfig).
Local Abbreviation openHedge_ :=
  (openHedge entryPrice maxPrice direction contractSize hedgeConfig).
Local Abbreviation within_ :=
  (fun o => beyondBoundary maxPrice direction o = false).
Local Abbreviation orders_ :=
  (potentialOrders entryPrice maxPrice step initLot multi direction
                   useDynamic).
Local Abbreviation accumulated_ :=
  (accumulated entryPrice maxPrice step initLot multi direction
               contractSize useDynamic hedgeConfig).
Local Abbreviation resultOf_ :=
  (resultOf entryPrice maxPrice direction contractSize isWinMode
            targetProfit).
Local Abbreviation records_ :=
  (recordsOrder entryPrice maxPrice direction contractSize).

(** The walk fills a prefix of the candidates, none of them beyond the
    boundary, and then either stops or opens the hedge. *)
Lemma walk_trace (orders : list Order.t) (st : Acc) :
  exists filled rest,
    orders = filled ++ rest
    /\ Forall within_ filled
    /\ (walk_ orders st = fillAll_ filled st
        \/ (hedgeArmed hedgeConfig (fillAll_ filled st) = true
            /\ walk_ orders st
               = openHedge_ "hedge-trigger" (fillAll_ filled st))).
Proof.
  revert st. induction orders as [|o os IH]; intros st.
  - exists [], []. split; [reflexivity|]. split; [constructor|now left].
  - cbn [walk]. destruct (beyondBoundary maxPrice direction o) eqn:Hb.
    + exists [], (o :: os).
      split; [reflexivity|]. split; [constructor|now left].
    + destruct (hedgeArmed hedgeConfig st) eqn:Harm; cbn [andb].
      * destruct (nle _ _).
        -- exists [], (o :: os). split; [reflexivity|].
           split; [constructor|]. right. now split.
        -- destruct (IH (fill_ o st)) as (filled & rest & Heq & Hin & Hc).
           exists (o :: filled), rest. split; [now rewrite Heq|].
           split; [now constructor|]. exact Hc.
      * destruct (IH (fill_ o st)) as (filled & rest & Heq & Hin & Hc).
        exists (o :: filled), rest. split; [now rewrite Heq|].
        split; [now constructor|]. exact Hc.
Qed.

Lemma accumulated_trace :
  exists filled rest,
    orders_ = filled ++ rest
    /\ Forall within_ filled
    /\ (let base := fillAll_ filled (initialAcc entryPrice) in
        (accumulated_ = base /\ isHedged base = false)
        \/ exists hid,
             hedgeArmed hedgeConfig base = true
             /\ accumulated_ = openHedge_ hid base).
Proof.
  unfold accumulated.
  destruct (walk_trace orders_ (initialAcc entryPrice))
    as (filled & rest & Heq & Hin & [Hw | [Harm Hw]]).
  - exists filled, rest. split; [exact Heq|]. split; [exact Hin|].
    cbv zeta. rewrite Hw. unfold finalCheck.
    destruct (hedgeArmed hedgeConfig
                (fillAll_ filled (initialAcc entryPrice))) eqn:Harm;
      cbn [andb].
    + destruct (nle _ _).
      * right. exists "hedge-final". now split.
      * left. split; [reflexivity|]. now rewrite fillAll_isHedged.
    + left. split; [reflexivity|]. now rewrite fillAll_isHedged.
  - exists filled, rest. split; [exact Heq|]. split; [exact Hin|].
    cbv zeta. rewrite Hw. unfold finalCheck.
    rewrite hedgeArmed_openHedge. cbn [andb].
    right. exists "hedge-trigger". now split.
Qed.

(** What the fills append to the positions: one record per order, in
    order, each chained to the running lot. *)
Lemma fillAll_appends (os : list Order.t) (st : Acc) :
  Forall within_ os ->
  exists news,
    executedPositions (fillAll_ os st) = executedPositions st ++ news
    /\ Forall2 records_ os news
    /\ lotsChained (currentTotalLot st) news
    /\ Forall (fun p =>
                 Position.indivPnL p
                 = calcSinglePnL direction contractSize maxPrice
                     (Position.price p) (Position.lot p)) news.
Proof.
  intros Hin. revert st.
  induction Hin as [|o os Ho _ IH]; intros st.
  - exists []. split; [now rewrite app_nil_r|].
    split; [constructor|]. split; constructor.
  - rewrite fillAll_cons.
    destruct (IH (fill_ o st)) as (news & Hpos & Hrec & Hchain & Hpnl).
    eexists (_ :: news). split.
    { rewrite Hpos. cbn [fill executedPositions].
      rewrite <- app_assoc. reflexivity. }
    split; [constructor; [|exact Hrec]|split].
    + unfold recordsOrder. cbn. now repeat split.
    + cbn [lotsChained Position.totalLot Position.lot].
      split; [reflexivity|exact Hchain].
    + constructor; [reflexivity|exact Hpnl].
Qed.

(** The filled records of a valid run, read from the candidate list. *)
Lemma result_filled :
  exists filled rest,
    orders_ = filled ++ rest
    /\ Forall2 records_ filled (filledRecords (resultOf_ accumulated_))
    /\ lotsChained (Fin 0) (filledRecords (resultOf_ accumulated_))
    /\ Summary.slot (summary (resultOf_ accumulated_)) = List.length filled
    /\ (isWinMode = false ->
        Forall (fun p =>
                  Position.indivPnL p
                  = calcSinglePnL direction contractSize maxPrice
                      (Position.price p) (Position.lot p))
               (filledRecords (resultOf_ accumulated_)))
    /\ last (map Position.totalLot (filledRecords (resultOf_ accumulated_)))
            (Fin 0)
       = Summary.totalLot (summary (resultOf_ accumulated_)).
Proof.
  destruct accumulated_trace as (filled & rest & Heq & Hin & Hcases).
  cbv zeta in Hcases.
  destruct (fillAll_appends filled (initialAcc entryPrice) Hin)
    as (news & Hpos & Hrec & Hchain & Hpnl).
  cbn [initialAcc executedPositions currentTotalLot app] in Hpos, Hchain.
  destruct (fillAll_basket entryPrice maxPrice direction contractSize filled)
    as (Hnon & _ & Hbasket).
  rewrite Hpos in Hnon, Hbasket.
  assert (Hlast : last (map Position.totalLot news) (Fin 0)
                  = Summary.totalLot (summary (resultOf_ accumulated_))).
  { assert (Htot : Summary.totalLot (summary (resultOf_ accumulated_))
                   = currentTotalLot (fillAll_ filled (initialAcc entryPrice))).
    { destruct Hcases as [[Hacc _] | (hid & _ & Hacc)]; now rewrite Hacc. }
    rewrite Htot.
    destruct Hbasket as [[Hnil Hzero] | (front & p & Hnews & Hp & _)].
    - subst filled. cbn in Hpos. subst news. now rewrite Hzero.
    - rewrite Hnews, map_app. cbn [map]. rewrite last_last. exact Hp. }
  exists filled, rest. split; [exact Heq|].
  assert (Hfilled :
    filledRecords (resultOf_ accumulated_)
    = if isWinMode
      then map (remark direction contractSize
                  (exitPriceOf direction targetProfit
                     (netAvgPriceFinal accumulated_))) news
      else news).
  { assert (Hexec :
      executedPositions accumulated_ = news
      \/ exists h, Position.type h = HEDGE
                   /\ executedPositions accumulated_ = news ++ [h]).
    { destruct Hcases as [[Hacc _] | (hid & _ & Hacc)]; rewrite Hacc.
      - left. exact Hpos.
      - right. cbn [openHedge executedPositions]. rewrite Hpos.
        eexists. split; [|reflexivity]. reflexivity. }
    unfold filledRecords. cbn [positions resultOf]. unfold finalPositionsOf.
    destruct Hexec as [Hexec | (h & Hty & Hexec)]; rewrite Hexec.
    - destruct isWinMode.
      + now rewrite filter_filled_all by now apply remark_nonHedge.
      + now rewrite filter_filled_all.
    - destruct isWinMode.
      + rewrite map_app. cbn [map].
        rewrite filter_filled_last;
          [reflexivity|now apply remark_nonHedge|exact Hty].
      + now rewrite filter_filled_last. }
  assert (Hslot : Summary.slot (summary (resultOf_ accumulated_))
                  = List.length (filledRecords (resultOf_ accumulated_))).
  { reflexivity. }
  rewrite Hslot, Hfilled.
  destruct isWinMode.
  - set (mark := remark direction contractSize _).
    split; [|split; [|split; [|split]]].
    + clear -Hrec. induction Hrec as [|o p os ps Hop _ IH]; cbn [map].
      * constructor.
      * constructor; [exact Hop|exact IH].
    + clear -Hchain. revert Hchain. generalize (Fin 0).
      induction news as [|p ps IH]; intros prev; cbn [map lotsChained].
      * trivial.
      * intros [Hp Hrest]. split; [exact Hp|]. now apply IH.
    + rewrite length_map. now apply Forall2_length in Hrec.
    + discriminate.
    + rewrite map_map. exact Hlast.
  - split; [exact Hrec|]. split; [exact Hchain|].
    split; [now apply Forall2_length in Hrec|].
    split; [intros _; exact Hpnl|exact Hlast].
Qed.

End Trace.

(** ** The safety cap *)

Lemma insertBy_length {A : Type} (cmp : A -> A -> num) (x : A) (l : list A) :
  List.length (insertBy cmp x l) = S (List.length l).
Proof.
  induction l as [|y l IH]; [reflexivity|].
  cbn [insertBy]. destruct (ngt (cmp x y) (Fin 0)); cbn [List.length].
  - now rewrite IH.
  - reflexivity.
Qed.

Lemma sortBy_length {A : Type} (cmp : A -> A -> num) (l : list A) :
  List.length (sortBy cmp l) = List.length l.
Proof.
  induction l as [|x l IH]; [reflexivity|].
  unfold sortBy in *. cbn [fold_right List.length].
  rewrite insertBy_length. now rewrite IH.
Qed.

Lemma potentialOrders_capped (entryPrice maxPrice step initLot multi : num)
    (direction : Direction) (useDynamic : bool) :
  (List.length (potentialOrders entryPrice maxPrice step initLot multi
                  direction useDynamic) <= safetyLimit)%nat.
Proof.
  unfold potentialOrders. cbv zeta.
  match goal with
  | |- context [if ?c then _ else _] => destruct c eqn:Hc
  end.
  - rewrite length_firstn. apply Nat.le_min_l.
  - apply Nat.ltb_ge in Hc. exact Hc.
Qed.

(** The number of HEDGE records of a valid run. *)
Lemma hedge_records_count
    (entryPrice maxPrice step initLot multi : num) (direction : Direction)
    (contractSize : num) (useDynamic : bool) (hedgeConfig : HedgeConfig)
    (isWinMode : bool) (targetProfit : num) :
  let r := resultOf entryPrice maxPrice direction contractSize isWinMode
             targetProfit
             (accumulated entryPrice maxPrice step initLot multi direction
                contractSize useDynamic hedgeConfig) in
  List.length (hedgeRecords r)
  = if Summary.isHedged (summary r) then 1%nat else 0%nat.
Proof.
  cbv zeta.
  destruct (accumulated_cases entryPrice maxPrice step initLot multi
              direction contractSize useDynamic hedgeConfig)
    as (filled & rest & _ & Hcases).
  cbv zeta in Hcases.
  destruct (fillAll_basket entryPrice maxPrice direction contractSize filled)
    as (Hnon & _ & _).
  destruct Hcases as [[Hacc Hno] | [(_ & Hacc & _) | (_ & Hacc & _)]].
  - rewrite Hacc in Hno |- *.
    destruct (resultOf_unhedged entryPrice maxPrice direction contractSize
                isWinMode targetProfit _ Hno Hnon) as [Hflag Hnone].
    now rewrite Hflag, Hnone.
  - rewrite Hacc.
    destruct (resultOf_hedged entryPrice maxPrice direction contractSize
                hedgeConfig isWinMode targetProfit "hedge-trigger" _ Hnon)
      as (Hflag & front & h & _ & _ & _ & Hrec & _).
    now rewrite Hflag, Hrec.
  - rewrite Hacc.
    destruct (resultOf_hedged entryPrice maxPrice direction contractSize
                hedgeConfig isWinMode targetProfit "hedge-final" _ Hnon)
      as (Hflag & front & h & _ & _ & _ & Hrec & _).
    now rewrite Hflag, Hrec.
Qed.

Lemma filter_split_length {A : Type} (f : A -> bool) (l : list A) :
  List.length l
  = (List.length (filter (fun x => negb (f x)) l)
     + List.length (filter f l))%nat.
Proof.
  induction l as [|x l IH]; [reflexivity|].
  cbn [filter]. destruct (f x); cbn [negb List.length]; lia.
Qed.

(** X1.  Whatever the inputs, the engine considers at most 3000 candidate
    orders, fills at most 3000 of them and returns at most 3001 positions;
    the positions are the filled orders plus one record when hedged. *)
Theorem simulation_size_capped
    (entryPrice maxPrice step initLot multi : num) (direction : Direction)
    (contractSize : num) (useDynamic : bool) (hedgeConfig : HedgeConfig)
    (isWinMode : bool) (targetProfit : num) :
  let r := calculateSimulation entryPrice maxPrice step initLot multi
             direction contractSize useDynamic hedgeConfig isWinMode
             targetProfit in
  (List.length (potentialOrders entryPrice maxPrice step initLot multi
                  direction useDynamic) <= 3000)%nat
  /\ (Summary.slot (summary r) <= 3000)%nat
  /\ List.length (positions r)
     = (Summary.slot (summary r)
        + if Summary.isHedged (summary r) then 1 else 0)%nat
  /\ (List.length (positions r) <= 3001)%nat.
Proof.
  pose proof (potentialOrders_capped entryPrice maxPrice step initLot multi
                direction useDynamic) as Hcap.
  unfold safetyLimit in Hcap.
  engine_guard.
  - split; [exact Hcap|]. cbn. repeat split; lia.
  - destruct (result_filled entryPrice maxPrice step initLot multi direction
                contractSize useDynamic hedgeConfig isWinMode targetProfit)
      as (filled & rest & Heq & _ & _ & Hslot & _).
    pose proof (hedge_records_count entryPrice maxPrice step initLot multi
                  direction contractSize useDynamic hedgeConfig isWinMode
                  targetProfit) as Hh.
    cbv zeta in Hh.
    set (r := resultOf entryPrice maxPrice direction contractSize isWinMode
                targetProfit _) in *.
    assert (Hlen : List.length (positions r)
                   = (Summary.slot (summary r)
                      + List.length (hedgeRecords r))%nat).
    { unfold hedgeRecords.
      rewrite (filter_split_length
                 (fun p => isHEDGE (Position.type p)) (positions r)).
      reflexivity. }
    assert (Hle : (Summary.slot (summary r) <= 3000)%nat).
    { rewrite Hslot. rewrite Heq, length_app in Hcap. lia. }
    rewrite Hh in Hlen.
    split; [exact Hcap|]. split; [exact Hle|]. split; [exact Hlen|].
    rewrite Hlen. destruct (Summary.isHedged (summary r)); lia.
Qed.

(** ** The hedge switch *)

(** X2.  When hedging is disabled, or the stop-loss amount is not below
    zero, no run is hedged: no HEDGE record, hedge lot 0, no trigger price,
    and the net average price is the gross average price. *)
Theorem no_hedge_without_negative_stop_loss
    (entryPrice maxPrice step initLot multi : num) (direction : Direction)
    (contractSize : num) (useDynamic : bool) (hedgeConfig : HedgeConfig)
    (isWinMode : bool) (targetProfit : num) :
  enabled hedgeConfig = false
  \/ nlt (stopLossAmount hedgeConfig) (Fin 0) = false ->
  let r := calculateSimulation entryPrice maxPrice step initLot multi
             direction contractSize useDynamic hedgeConfig isWinMode
             targetProfit in
  Summary.isHedged (summary r) = false
  /\ hedgeRecords r = []
  /\ Summary.hedgeLot (summary r) = Fin 0
  /\ Summary.hedgeTriggerPrice (summary r) = None
  /\ Summary.netAvgPrice (summary r) = Summary.avgPrice (summary r).
Proof.
  intros Hoff. engine_guard; [now repeat split|].
  destruct (accumulated_trace entryPrice maxPrice step initLot multi
              direction contractSize useDynamic hedgeConfig)
    as (filled & rest & _ & _ & Hcases).
  cbv zeta in Hcases.
  destruct (fillAll_basket entryPrice maxPrice direction contractSize filled)
    as (Hnon & _ & _).
  destruct Hcases as [[Hacc Hno] | (hid & Harm & _)].
  - rewrite Hacc.
    destruct (resultOf_unhedged entryPrice maxPrice direction contractSize
                isWinMode targetProfit _ Hno Hnon) as [Hflag Hnone].
    split; [exact Hflag|]. split; [exact Hnone|].
    cbn [summary resultOf Summary.hedgeLot Summary.hedgeTriggerPrice
         Summary.netAvgPrice Summary.avgPrice].
    unfold netAvgPriceFinal. rewrite Hno. now repeat split.
  - apply hedgeArmed_lot in Harm. destruct Harm as (_ & Hsl & _ & Hen).
    destruct Hoff as [H | H]; congruence.
Qed.

Lemma no_hedge_without_negative_stop_loss_witness :
  (enabled (hedgeAt (Fin 0)) = false
   \/ nlt (stopLossAmount (hedgeAt (Fin 0))) (Fin 0) = false)
  /\ Summary.isHedged (summary (scenario (hedgeAt (Fin 0)))) = false.
Proof.
  split.
  - right. reflexivity.
  - apply (no_hedge_without_negative_stop_loss (Fin 2000) (Fin 1950) (Fin 10)
             (Fin 0.01) (Fin 1.4) LONG (Fin 100) false (hedgeAt (Fin 0))
             false (Fin 0)).
    right. reflexivity.
Defined.

(** ** The filled positions and the candidate list *)

(** X3.  The filled positions are the first [slot] candidate orders, in
    order and without gaps: the k-th position carries the type, label,
    price and lot of the k-th candidate, and its distance from the entry. *)
Theorem filled_positions_follow_orders
    (entryPrice maxPrice step initLot multi : num) (direction : Direction)
    (contractSize : num) (useDynamic : bool) (hedgeConfig : HedgeConfig)
    (isWinMode : bool) (targetProfit : num) :
  let r := calculateSimulation entryPrice maxPrice step initLot multi
             direction contractSize useDynamic hedgeConfig isWinMode
             targetProfit in
  let orders := potentialOrders entryPrice maxPrice step initLot multi
                  direction useDynamic in
  Forall2 (fun o p =>
             Position.type p = positionType (Order.type o)
             /\ Position.level p = Order.label o
             /\ Position.price p = Order.price o
             /\ Position.lot p = Order.lot o
             /\ Position.dist p = nabs (nsub entryPrice (Order.price o)))
          (firstn (Summary.slot (summary r)) orders)
          (filledRecords r).
Proof.
  engine_guard; [constructor|].
  destruct (result_filled entryPrice maxPrice step initLot multi direction
              contractSize useDynamic hedgeConfig isWinMode targetProfit)
    as (filled & rest & Heq & Hrec & _ & Hslot & _).
  rewrite Hslot, Heq, firstn_app, Nat.sub_diag, firstn_all, firstn_O,
    app_nil_r.
  revert Hrec. apply Forall2_impl.
  intros o p (Hty & Hlv & Hp & Hl & Hd & _). now repeat split.
Qed.

(** X4.  No filled position lies beyond the boundary in the adverse
    direction: its price is not below the boundary for LONG, not above it
    for SHORT. *)
Theorem filled_positions_within_boundary
    (entryPrice maxPrice step initLot multi : num) (direction : Direction)
    (contractSize : num) (useDynamic : bool) (hedgeConfig : HedgeConfig)
    (isWinMode : bool) (targetProfit : num) :
  let r := calculateSimulation entryPrice maxPrice step initLot multi
             direction contractSize useDynamic hedgeConfig isWinMode
             targetProfit in
  Forall (fun p =>
            match direction with
            | LONG => nlt (Position.price p) maxPrice = false
            | SHORT => ngt (Position.price p) maxPrice = false
            end)
         (filledRecords r).
Proof.
  engine_guard; [constructor|].
  destruct (result_filled entryPrice maxPrice step initLot multi direction
              contractSize useDynamic hedgeConfig isWinMode targetProfit)
    as (filled & rest & _ & Hrec & _).
  induction Hrec as [|o p os ps (_ & _ & Hp & _ & _ & Hin) _ IH];
    constructor; [|exact IH].
  rewrite Hp. unfold beyondBoundary, isLong in Hin. now destruct direction.
Qed.

(** X5.  The total lot recorded in each filled position is the previous
    total lot (0 before the first) plus the position's lot, rounded to
    hundredths at every step; the summary's total lot is the one recorded
    in the last filled position, 0 when nothing was filled. *)
Theorem total_lot_is_running_rounded_sum
    (entryPrice maxPrice step initLot multi : num) (direction : Direction)
    (contractSize : num) (useDynamic : bool) (hedgeConfig : HedgeConfig)
    (isWinMode : bool) (targetProfit : num) :
  let r := calculateSimulation entryPrice maxPrice step initLot multi
             direction contractSize useDynamic hedgeConfig isWinMode
             targetProfit in
  lotsChained (Fin 0) (filledRecords r)
  /\ Summary.totalLot (summary r)
     = last (map Position.totalLot (filledRecords r)) (Fin 0).
Proof.
  engine_guard; [now split|].
  destruct (result_filled entryPrice maxPrice step initLot multi direction
              contractSize useDynamic hedgeConfig isWinMode targetProfit)
    as (filled & rest & _ & _ & Hchain & _ & _ & Hlast).
  split; [exact Hchain|]. now rewrite Hlast.
Qed.

(** ** The hedge record and the summary *)

(** X6.  In a hedged run the net figures computed when the hedge opens and
    those computed for the summary agree: the hedge record's lot, total
    lot and average price are the summary's hedge lot, net lot and net
    average price; the hedge lot is the total lot times the hedge
    multiplier, rounded to hundredths. *)
Theorem hedge_record_matches_summary
    (entryPrice maxPrice step initLot multi : num) (direction : Direction)
    (contractSize : num) (useDynamic : bool) (hedgeConfig : HedgeConfig)
    (isWinMode : bool) (targetProfit : num) :
  let r := calculateSimulation entryPrice maxPrice step initLot multi
             direction contractSize useDynamic hedgeConfig isWinMode
             targetProfit in
  Summary.isHedged (summary r) = true ->
  exists front h,
    positions r = front ++ [h]
    /\ Position.type h = HEDGE
    /\ Position.lot h = Summary.hedgeLot (summary r)
    /\ Position.totalLot h = Summary.netLot (summary r)
    /\ Position.avgPrice h = Summary.netAvgPrice (summary r)
    /\ Position.dist h = nabs (nsub entryPrice (Position.price h))
    /\ Summary.hedgeLot (summary r)
       = normalizeLot (nmul (Summary.totalLot (summary r))
                            (lotMulti hedgeConfig)).
Proof.
  engine_guard; [discriminate|].
  destruct (accumulated_trace entryPrice maxPrice step initLot multi
              direction contractSize useDynamic hedgeConfig)
    as (filled & rest & _ & _ & Hcases).
  cbv zeta in Hcases.
  destruct Hcases as [[Hacc Hno] | (hid & _ & Hacc)]; rewrite Hacc.
  - intros Hflag. cbn in Hflag. congruence.
  - intros _. cbn [positions resultOf]. unfold finalPositionsOf.
    cbn [openHedge executedPositions]. destruct isWinMode.
    + rewrite map_app. cbn [map]. eexists _, _.
      split; [reflexivity|]. cbn. now repeat split.
    + eexists _, _. split; [reflexivity|]. cbn. now repeat split.
Qed.

Lemma hedge_record_matches_summary_witness :
  Summary.isHedged (summary scenarioB200) = true
  /\ exists front h,
       positions scenarioB200 = front ++ [h]
       /\ Position.type h = HEDGE
       /\ Position.lot h = Summary.hedgeLot (summary scenarioB200)
       /\ Position.totalLot h = Summary.netLot (summary scenarioB200)
       /\ Position.avgPrice h = Summary.netAvgPrice (summary scenarioB200)
       /\ Position.dist h = nabs (nsub (Fin 2000) (Position.price h))
       /\ Summary.hedgeLot (summary scenarioB200)
          = normalizeLot (nmul (Summary.totalLot (summary scenarioB200))
                               (Fin 2)).
Proof.
  split.
  - vm_compute. reflexivity.
  - apply (hedge_record_matches_summary (Fin 2000) (Fin 1950) (Fin 10)
             (Fin 0.01) (Fin 1.4) LONG (Fin 100) false (hedgeAt (Fin (-200)))
             false (Fin 0)).
    vm_compute. reflexivity.
Defined.

(** ** The order of the filled positions *)

Section SortedByDistance.

Variable e : Q.

Local Abbreviation nearer_ := (fun a b : Order.t => distQ e a <= distQ e b).

Lemma byDistance_finite (a b : Order.t) :
  finiteOrder a -> finiteOrder b ->
  ngt (byDistance (Fin e) a b) (Fin 0) = true <-> distQ e b < distQ e a.
Proof.
  intros [Ha _] [Hb _].
  apply isFin_inv in Ha. destruct Ha as [pa Ha].
  apply isFin_inv in Hb. destruct Hb as [pb Hb].
  unfold byDistance, distQ. rewrite Ha, Hb.
  unfold nsub, nabs, fin, ngt. rewrite nlt_Fin, !Qred_correct. lra.
Qed.

Lemma insertBy_sorted (x : Order.t) (l : list Order.t) :
  finiteOrder x -> Forall finiteOrder l ->
  StronglySorted nearer_ l ->
  StronglySorted nearer_ (insertBy (byDistance (Fin e)) x l).
Proof.
  intros Hx Hfin Hs. induction Hs as [|y l Hs IH Hy]; cbn [insertBy].
  - constructor; constructor.
  - inversion Hfin as [|y' l' Hfy Hfl]; subst.
    destruct (ngt (byDistance (Fin e) x y) (Fin 0)) eqn:Hgt.
    + apply byDistance_finite in Hgt; [|assumption|assumption].
      constructor; [now apply IH|].
      apply insertBy_Forall; [lra|exact Hy].
    + assert (Hle : distQ e x <= distQ e y).
      { destruct (Qlt_le_dec (distQ e y) (distQ e x)) as [H | H];
          [|exact H].
        apply byDistance_finite in H; [congruence|assumption|assumption]. }
      constructor; [now constructor|].
      constructor; [exact Hle|].
      revert Hy. apply Forall_impl. intros z Hz. lra.
Qed.

Lemma sortBy_sorted (l : list Order.t) :
  Forall finiteOrder l ->
  StronglySorted nearer_ (sortBy (byDistance (Fin e)) l).
Proof.
  induction 1 as [|x l Hx Hl IH]; unfold sortBy; cbn [fold_right].
  - constructor.
  - apply insertBy_sorted; [exact Hx| |exact IH].
    now apply sortBy_Forall.
Qed.

Lemma sorted_app_l {A : Type} (R : A -> A -> Prop) (l1 l2 : list A) :
  StronglySorted R (l1 ++ l2) -> StronglySorted R l1.
Proof.
  induction l1 as [|x l1 IH]; intros H; [constructor|].
  inversion H as [|x' l' Hs Hall]; subst.
  constructor; [now apply IH|].
  apply Forall_app in Hall. tauto.
Qed.

Lemma sorted_firstn {A : Type} (R : A -> A -> Prop) (n : nat) (l : list A) :
  StronglySorted R l -> StronglySorted R (firstn n l).
Proof.
  intros H. rewrite <- (firstn_skipn n l) in H.
  now apply sorted_app_l in H.
Qed.

(** The candidate list of finite inputs is sorted by distance from the
    entry. *)
Lemma potentialOrders_sorted (b st il m : Q) (direction : Direction)
    (useDynamic : bool) :
  StronglySorted nearer_
    (potentialOrders (Fin e) (Fin b) (Fin st) (Fin il) (Fin m) direction
                     useDynamic).
Proof.
  pose proof (potentialOrders_finite e b st il m direction useDynamic)
    as Hfin.
  unfold potentialOrders in *. cbv zeta in *.
  match goal with
  | |- context [sortBy ?c ?l] =>
      assert (Hsorted : StronglySorted nearer_ (sortBy c l))
  end.
  { apply sortBy_sorted. apply Forall_app. split.
    - apply Forall_map, Forall_forall. intros i _.
      unfold finiteOrder, mainOrder, ofNat. cbn [Order.price Order.lot].
      split.
      + destruct direction; exact I.
      + destruct i as [|k]; cbn [Nat.eqb].
        * rewrite normalizeLot_Fin. exact I.
        * unfold pow, nmul, fin. rewrite normalizeLot_Fin. exact I.
    - destruct useDynamic; [|constructor].
      apply Forall_map, Forall_forall. intros i _.
      unfold finiteOrder, dynOrder, ofNat. cbn [Order.price Order.lot].
      split.
      + destruct direction; exact I.
      + replace (i + 2)%nat with (S (S i)) by lia.
        unfold pow, nmul, fin. rewrite normalizeLot_Fin. exact I. }
  match goal with
  | |- context [if ?c then _ else _] => destruct c
  end.
  - now apply sorted_firstn.
  - exact Hsorted.
Qed.

End SortedByDistance.

(** X7.  For finite inputs the filled positions are ordered by distance
    from the entry: each position's [dist] is at most that of every later
    filled position. *)
Theorem filled_positions_sorted_by_distance
    (e b st il m : Q) (direction : Direction) (contractSize : num)
    (useDynamic : bool) (hedgeConfig : HedgeConfig) (isWinMode : bool)
    (targetProfit : num) :
  let r := calculateSimulation (Fin e) (Fin b) (Fin st) (Fin il) (Fin m)
             direction contractSize useDynamic hedgeConfig isWinMode
             targetProfit in
  StronglySorted
    (fun p q => nle (Position.dist p) (Position.dist q) = true)
    (filledRecords r).
Proof.
  engine_guard; [constructor|].
  destruct (result_filled (Fin e) (Fin b) (Fin st) (Fin il) (Fin m)
              direction contractSize useDynamic hedgeConfig isWinMode
              targetProfit)
    as (filled & rest & Heq & Hrec & _).
  pose proof (potentialOrders_sorted e b st il m direction useDynamic)
    as Hsorted.
  pose proof (potentialOrders_finite e b st il m direction useDynamic)
    as Hfin.
  rewrite Heq in Hsorted, Hfin.
  apply sorted_app_l in Hsorted. apply Forall_app in Hfin.
  destruct Hfin as [Hfin _].
  assert (Hdist : Forall2 (fun o p => Position.dist p = fin (distQ e o))
                          filled
                          (filledRecords
                             (resultOf (Fin e) (Fin b) direction contractSize
                                isWinMode targetProfit
                                (accumulated (Fin e) (Fin b) (Fin st) (Fin il)
                                   (Fin m) direction contractSize useDynamic
                                   hedgeConfig)))).
  { clear Hsorted Heq. revert Hfin.
    induction Hrec as [|o p os ps Hop _ IH]; intros Hfin.
    - constructor.
    - inversion Hfin as [|o' os' [Hp _] Hfin']; subst.
      constructor; [|now apply IH].
      destruct Hop as (_ & _ & _ & _ & Hd & _). rewrite Hd.
      apply isFin_inv in Hp. destruct Hp as [q Hq].
      unfold distQ. rewrite Hq. unfold nsub, nabs, fin. f_equal.
      apply Qred_complete. now rewrite Qred_correct. }
  clear Hrec Hfin Heq. revert Hsorted.
  induction Hdist as [|o p os ps Hop Hrest IH]; intros Hs.
  - constructor.
  - inversion Hs as [|o' os' Hs' Hall]; subst.
    constructor; [now apply IH|].
    clear IH Hs Hs'. induction Hrest as [|o' q os' qs Hoq _ IH'].
    + constructor.
    + inversion Hall as [|x xs Hle Hall']; subst.
      constructor; [|now apply IH'].
      rewrite Hop, Hoq. unfold fin. apply nle_Fin.
      now rewrite !Qred_correct.
Qed.

(** * Further properties of the solvers *)

Section Bisection.

Variable s : App.State.

Lemma midRange_between (lo hi : Q) :
  lo <= hi ->
  exists mid,
    ndiv (nadd (Fin lo) (Fin hi)) (Fin 2) = Fin mid
    /\ lo <= mid /\ mid <= hi.
Proof.
  intros Hle. unfold nadd, fin. rewrite ndiv_Fin by discriminate.
  eexists. split; [reflexivity|].
  rewrite !Qred_correct.
  assert (Hy : (lo + hi) / 2 * 2 == lo + hi) by field.
  split; lra.
Qed.

(** The breakeven bisection returns the boundary it was given, or a test
    boundary at a distance inside the current bracket whose breakeven is
    less than 0.5 away from the target. *)
Lemma bisectBE_outcome (rounds : nat) (tBE : num) (lo hi : Q)
    (bestMax : num) :
  lo <= hi ->
  let best := App.bisectBE s rounds tBE (Fin lo) (Fin hi) bestMax in
  best = bestMax
  \/ exists mid,
       lo <= mid /\ mid <= hi
       /\ best = App.testMaxAt s (Fin mid)
       /\ nlt (nabs (nsub (breakevenOf (App.simulateAt s best)) tBE))
              (Fin 0.5) = true.
Proof.
  cbv zeta. revert lo hi.
  induction rounds as [|k IH]; intros lo hi Hle; [now left|].
  cbn [App.bisectBE]. cbv zeta.
  destruct (midRange_between lo hi Hle) as (mid & Hmid & Hlo & Hhi).
  rewrite Hmid.
  fold (breakevenOf (App.simulateAt s (App.testMaxAt s (Fin mid)))).
  destruct (nlt (nabs (nsub (breakevenOf
                               (App.simulateAt s (App.testMaxAt s (Fin mid))))
                            tBE)) (Fin 0.5)) eqn:Hacc.
  - right. exists mid. now repeat split.
  - assert (Hup : forall b,
              b = App.bisectBE s k tBE (Fin mid) (Fin hi) bestMax ->
              b = bestMax
              \/ exists mid',
                   lo <= mid' /\ mid' <= hi
                   /\ b = App.testMaxAt s (Fin mid')
                   /\ nlt (nabs (nsub (breakevenOf (App.simulateAt s b)) tBE))
                          (Fin 0.5) = true).
    { intros b ->. destruct (IH mid hi Hhi) as [H | (m' & H1 & H2 & H3)].
      - now left.
      - right. exists m'. split; [lra|]. now split. }
    assert (Hdown : forall b,
              b = App.bisectBE s k tBE (Fin lo) (Fin mid) bestMax ->
              b = bestMax
              \/ exists mid',
                   lo <= mid' /\ mid' <= hi
                   /\ b = App.testMaxAt s (Fin mid')
                   /\ nlt (nabs (nsub (breakevenOf (App.simulateAt s b)) tBE))
                          (Fin 0.5) = true).
    { intros b ->. destruct (IH lo mid Hlo) as [H | (m' & H1 & H2 & H3)].
      - now left.
      - right. exists m'. split; [exact H1|]. split; [lra|exact H3]. }
    destruct (App.direction s).
    + destruct (ngt _ tBE); [now apply Hup|now apply Hdown].
    + destruct (nlt _ tBE); [now apply Hup|now apply Hdown].
Qed.

Lemma bisectPnL_outcome (rounds : nat) (target : num) (lo hi : Q)
    (bestMax : num) :
  lo <= hi ->
  let best := App.bisectPnL s rounds target (Fin lo) (Fin hi) bestMax in
  best = bestMax
  \/ exists mid,
       lo <= mid /\ mid <= hi
       /\ best = App.testMaxAt s (Fin mid)
       /\ nlt (nabs (nsub (Summary.pnl (summary (App.simulateAt s best)))
                          target))
              (Fin 10) = true.
Proof.
  cbv zeta. revert lo hi.
  induction rounds as [|k IH]; intros lo hi Hle; [now left|].
  cbn [App.bisectPnL]. cbv zeta.
  destruct (midRange_between lo hi Hle) as (mid & Hmid & Hlo & Hhi).
  rewrite Hmid.
  destruct (nlt (nabs (nsub (Summary.pnl
                               (summary
                                  (App.simulateAt s
                                     (App.testMaxAt s (Fin mid)))))
                            target)) (Fin 10)) eqn:Hacc.
  - right. exists mid. now repeat split.
  - destruct (ngt _ target).
    + destruct (IH mid hi Hhi) as [H | (m' & H1 & H2 & H3)].
      * now left.
      * right. exists m'. split; [lra|]. now split.
    + destruct (IH lo mid Hlo) as [H | (m' & H1 & H2 & H3)].
      * now left.
      * right. exists m'. split; [exact H1|]. split; [lra|exact H3].
Qed.

End Bisection.

(** X8.  For a positive target, [solveForTargetBE] changes the range and
    the max price only.  It commits either the max price it started from,
    or a boundary on the adverse side of the entry at a distance between
    0.1 and 5000 at which the engine's breakeven is less than 0.5 away
    from the target; the committed values are rounded to two decimals and
    the range is the distance of the committed boundary from the entry. *)
Theorem solveForTargetBE_outcome (s : App.State) (tBE : Q) :
  0 < tBE ->
  exists bestMax,
    App.solveForTargetBE s (Fin tBE)
    = App.setMaxPrice (toFixed2 bestMax)
        (App.setRange (toFixed2 (nabs (nsub (App.entryPrice s) bestMax))) s)
    /\ (bestMax = App.maxPrice s
        \/ exists mid,
             1 # 10 <= mid /\ mid <= 5000
             /\ bestMax = match App.direction s with
                          | LONG => nsub (App.entryPrice s) (Fin mid)
                          | SHORT => nadd (App.entryPrice s) (Fin mid)
                          end
             /\ nlt (nabs (nsub (breakevenOf (App.simulateAt s bestMax))
                                (Fin tBE)))
                    (Fin 0.5) = true).
Proof.
  intros Ht. unfold App.solveForTargetBE.
  assert (Hguard : negb (truthy (Fin tBE)) || nle (Fin tBE) (Fin 0) = false).
  { apply orb_false_iff. split.
    - cbn [truthy]. rewrite negb_involutive.
      destruct (Qeq_bool tBE 0) eqn:E; [|reflexivity].
      apply Qeq_bool_eq in E. lra.
    - destruct (nle (Fin tBE) (Fin 0)) eqn:E; [|reflexivity].
      apply nle_Fin in E. lra. }
  rewrite Hguard.
  eexists. split; [reflexivity|].
  assert (Hle : 1 # 10 <= 5000) by discriminate.
  exact (bisectBE_outcome s 30 (Fin tBE) (1 # 10) 5000 (App.maxPrice s) Hle).
Qed.

Lemma solveForTargetBE_outcome_witness :
  0 < 1960
  /\ exists bestMax,
       App.solveForTargetBE App.initialState (Fin 1960)
       = App.setMaxPrice (toFixed2 bestMax)
           (App.setRange
              (toFixed2 (nabs (nsub (App.entryPrice App.initialState)
                                    bestMax)))
              App.initialState)
       /\ (bestMax = App.maxPrice App.initialState
           \/ exists mid,
                1 # 10 <= mid /\ mid <= 5000
                /\ bestMax = match App.direction App.initialState with
                             | LONG => nsub (App.entryPrice App.initialState)
                                            (Fin mid)
                             | SHORT => nadd (App.entryPrice App.initialState)
                                             (Fin mid)
                             end
                /\ nlt (nabs (nsub (breakevenOf
                                      (App.simulateAt App.initialState
                                         bestMax))
                                   (Fin 1960)))
                       (Fin 0.5) = true).
Proof.
  split; [reflexivity|].
  apply (solveForTargetBE_outcome App.initialState 1960). reflexivity.
Defined.

(** X9.  [solveForTargetPnL] changes the range and the max price only,
    for every target.  It commits either the max price it started from,
    or a boundary on the adverse side of the entry at a distance between
    0.1 and 5000 at which the engine's net P&L is less than 10 away from
    the target. *)
Theorem solveForTargetPnL_outcome (s : App.State) (target : num) :
  exists bestMax,
    App.solveForTargetPnL s target
    = App.setMaxPrice (toFixed2 bestMax)
        (App.setRange (toFixed2 (nabs (nsub (App.entryPrice s) bestMax))) s)
    /\ (bestMax = App.maxPrice s
        \/ exists mid,
             1 # 10 <= mid /\ mid <= 5000
             /\ bestMax = match App.direction s with
                          | LONG => nsub (App.entryPrice s) (Fin mid)
                          | SHORT => nadd (App.entryPrice s) (Fin mid)
                          end
             /\ nlt (nabs (nsub (Summary.pnl
                                   (summary (App.simulateAt s bestMax)))
                                target))
                    (Fin 10) = true).
Proof.
  unfold App.solveForTargetPnL.
  eexists. split; [reflexivity|].
  assert (Hle : 1 # 10 <= 5000) by discriminate.
  exact (bisectPnL_outcome s 30 target (1 # 10) 5000 (App.maxPrice s) Hle).
Qed.

(** * Properties of the component's figures *)

(** X10.  The drawdown amount is never negative and never [NaN], whatever
    the balance and the P&L, [NaN] and the infinities included: it is 0
    unless the P&L is a loss, and the absolute value of the P&L then. *)
Theorem stats_drawdown (r : SimulationResult) (balance : num) :
  let st := Dashboard.stats (Some r) balance in
  let pnl := Summary.pnl (summary r) in
  nle (Fin 0) (Dashboard.ddAmount st) = true
  /\ (nlt pnl (Fin 0) = false -> Dashboard.ddAmount st = Fin 0)
  /\ (nlt pnl (Fin 0) = true -> Dashboard.ddAmount st = nabs pnl).
Proof.
  cbv zeta. unfold Dashboard.stats. cbn [Dashboard.ddAmount].
  destruct (Summary.pnl (summary r)) as [q| | |] eqn:Hpnl.
  - destruct (nlt (Fin q) (Fin 0)) eqn:Hneg.
    + split; [|split; [discriminate|reflexivity]].
      unfold nabs, fin. apply nle_Fin. rewrite Qred_correct.
      apply Qabs_nonneg.
    + split; [reflexivity|]. split; [reflexivity|discriminate].
  - split; [reflexivity|]. split; [reflexivity|discriminate].
  - split; [reflexivity|]. split; [discriminate|reflexivity].
  - split; [reflexivity|]. split; [reflexivity|discriminate].
Qed.



(** ** The range covered *)

(** With a positive step every candidate order of a finite run is priced
    at the entry or on its adverse side. *)
Lemma potentialOrders_adverse (e b st : Q) (initLot multi : num)
    (direction : Direction) (useDynamic : bool) :
  0 < st ->
  Forall (fun o => exists q,
              Order.price o = Fin q
              /\ match direction with LONG => q <= e | SHORT => e <= q end)
         (potentialOrders (Fin e) (Fin b) (Fin st) initLot multi direction
                          useDynamic).
Proof.
  intros Hst.
  unfold potentialOrders. cbv zeta.
  match goal with
  | |- context [sortBy ?c ?generated] =>
      assert (Hsorted :
        Forall (fun o => exists q,
                    Order.price o = Fin q
                    /\ match direction with
                       | LONG => q <= e
                       | SHORT => e <= q
                       end)
               (sortBy c generated))
  end.
  { apply sortBy_Forall, Forall_app. split.
    - apply Forall_map, Forall_forall. intros i _.
      pose proof (ofNat_nonneg i) as Hi.
      unfold mainOrder, ofNat. cbn [Order.price].
      destruct direction; unfold isLong, nsub, nadd, nmul, fin;
        eexists; (split; [reflexivity|]); rewrite !Qred_correct; nra.
    - destruct useDynamic; [|constructor].
      apply Forall_map, Forall_forall. intros i _.
      pose proof (ofNat_nonneg i) as Hi.
      assert (H15 : 0 < 1.5) by reflexivity.
      unfold dynOrder, ofNat. cbn [Order.price].
      destruct direction; unfold isLong, nsub, nadd, nmul, fin;
        eexists; (split; [reflexivity|]); rewrite !Qred_correct; nra. }
  match goal with
  | |- context [if (?n <? ?len)%nat then _ else _] => destruct (n <? len)%nat
  end.
  - now apply firstn_Forall.
  - exact Hsorted.
Qed.

(** X12.  For finite inputs no filled position is farther from the entry
    than the boundary: every [dist] is at most [rangeCovered]. *)
Theorem filled_positions_within_range
    (e b st : Q) (initLot multi : num) (direction : Direction)
    (contractSize : num) (useDynamic : bool) (hedgeConfig : HedgeConfig)
    (isWinMode : bool) (targetProfit : num) :
  let r := calculateSimulation (Fin e) (Fin b) (Fin st) initLot multi
             direction contractSize useDynamic hedgeConfig isWinMode
             targetProfit in
  Forall (fun p =>
            nle (Position.dist p) (Summary.rangeCovered (summary r)) = true)
         (filledRecords r).
Proof.
  engine_guard; [constructor|].
  assert (Hst : 0 < st).
  { apply orb_false_iff in Hguard. destruct Hguard as [Hg _].
    apply orb_false_iff in Hg. destruct Hg as [Hs _].
    destruct (Qlt_le_dec 0 st) as [H | H]; [exact H|].
    apply nle_Fin in H. congruence. }
  destruct (result_filled (Fin e) (Fin b) (Fin st) initLot multi direction
              contractSize useDynamic hedgeConfig isWinMode targetProfit)
    as (filled & rest & Heq & Hrec & _).
  pose proof (potentialOrders_adverse e b st initLot multi direction
                useDynamic Hst) as Hadv.
  rewrite Heq in Hadv. apply Forall_app in Hadv. destruct Hadv as [Hadv _].
  cbn [summary resultOf Summary.rangeCovered].
  clear Heq. revert Hadv.
  induction Hrec as [|o p os ps Hop _ IH]; intros Hadv; [constructor|].
  inversion Hadv as [|o' os' (q & Hq & Hside) Hadv']; subst.
  constructor; [|now apply IH].
  destruct Hop as (_ & _ & _ & _ & Hd & Hin).
  rewrite Hd, Hq. unfold beyondBoundary in Hin. rewrite Hq in Hin.
  unfold nsub, nabs, fin. apply nle_Fin. rewrite !Qred_correct.
  destruct direction; unfold isLong, ngt in Hin.
  - assert (Hb : b <= q).
    { destruct (Qlt_le_dec q b) as [H | H]; [|exact H].
      apply nlt_Fin in H. congruence. }
    rewrite !Qabs_pos by lra. lra.
  - assert (Hb : q <= b).
    { destruct (Qlt_le_dec b q) as [H | H]; [|exact H].
      apply nlt_Fin in H. congruence. }
    rewrite !Qabs_neg by lra. lra.
Qed.

(** ** The profit target and win mode *)




(** ** The chart series *)

Lemma mainLadder_types (entryPrice maxPrice step initLot multi : num)
    (direction : Direction) :
  Forall (fun o => Order.type o <> OrdDYN)
         (potentialOrders entryPrice maxPrice step initLot multi direction
                          false).
Proof.
  unfold potentialOrders. cbv zeta.
  match goal with
  | |- context [sortBy ?c ?generated] =>
      assert (Hsorted : Forall (fun o => Order.type o <> OrdDYN)
                               (sortBy c generated))
  end.
  { apply sortBy_Forall. rewrite app_nil_r.
    apply Forall_map, Forall_forall. intros i _.
    unfold mainOrder. cbn [Order.type]. now destruct (Nat.eqb i 0). }
  match goal with
  | |- context [if (?n <? ?len)%nat then _ else _] => destruct (n <? len)%nat
  end.
  - now apply firstn_Forall.
  - exact Hsorted.
Qed.

(** X14.  The three series of the chart split the positions of a result:
    the main and dynamic series together are the filled orders, the hedge
    series holds the hedge record when the run is hedged and nothing
    otherwise, and without the dynamic ladder the dynamic series is
    empty. *)
Theorem chart_series_partition
    (entryPrice maxPrice step initLot multi : num) (direction : Direction)
    (contractSize : num) (useDynamic : bool) (hedgeConfig : HedgeConfig)
    (isWinMode : bool) (targetProfit : num) :
  let r := calculateSimulation entryPrice maxPrice step initLot multi
             direction contractSize useDynamic hedgeConfig isWinMode
             targetProfit in
  (List.length (Dashboard.mainData (Some r))
   + List.length (Dashboard.dynData (Some r)))%nat = Summary.slot (summary r)
  /\ List.length (Dashboard.hedgeData (Some r))
     = (if Summary.isHedged (summary r) then 1 else 0)%nat
  /\ (useDynamic = false -> Dashboard.dynData (Some r) = []).
Proof.
  cbv zeta.
  assert (Hsplit : forall ps : list Position.t,
    (List.length (filter (fun p => match Position.type p with
                                   | ENTRY | MAIN => true
                                   | _ => false
                                   end) ps)
     + List.length (filter (fun p => match Position.type p with
                                     | DYN => true
                                     | _ => false
                                     end) ps))%nat
    = List.length (filter (fun p => negb (isHEDGE (Position.type p))) ps)).
  { induction ps as [|p ps IH]; [reflexivity|].
    cbn [filter]. destruct (Position.type p); cbn [isHEDGE negb List.length];
      lia. }
  unfold Dashboard.mainData, Dashboard.hedgeData, Dashboard.dynData,
    Dashboard.seriesOf.
  engine_guard.
  - split; [reflexivity|]. split; reflexivity.
  - split; [exact (Hsplit _)|]. split.
    + pose proof (hedge_records_count entryPrice maxPrice step initLot multi
                    direction contractSize useDynamic hedgeConfig isWinMode
                    targetProfit) as Hh.
      cbv zeta in Hh. unfold hedgeRecords in Hh. rewrite <- Hh.
      reflexivity.
    + intros ->.
      destruct (result_filled entryPrice maxPrice step initLot multi
                  direction contractSize false hedgeConfig isWinMode
                  targetProfit)
        as (filled & rest & Heq & Hrec & _).
      pose proof (mainLadder_types entryPrice maxPrice step initLot multi
                    direction) as Hty.
      rewrite Heq in Hty. apply Forall_app in Hty. destruct Hty as [Hty _].
      set (r := resultOf entryPrice maxPrice direction contractSize isWinMode
                  targetProfit _) in *.
      assert (Hnodyn : Forall (fun p => Position.type p <> DYN)
                              (filledRecords r)).
      { clear Heq. revert Hty.
        induction Hrec as [|o p os ps Hop _ IH]; intros Hty; [constructor|].
        inversion Hty as [|o' os' Ho Hty']; subst.
        constructor; [|now apply IH].
        destruct Hop as (Hp & _). rewrite Hp.
        destruct (Order.type o); [discriminate|discriminate|contradiction]. }
      assert (Hnone : forall ps : list Position.t,
                Forall (fun p => Position.type p <> DYN)
                       (filter (fun p => negb (isHEDGE (Position.type p))) ps) ->
                filter (fun p => match Position.type p with
                                 | DYN => true
                                 | _ => false
                                 end) ps = []).
      { induction ps as [|p ps IH]; [reflexivity|].
        cbn [filter]. destruct (Position.type p) eqn:Hp;
          cbn [isHEDGE negb]; intros H;
          try (inversion H; subst; now apply IH); try now apply IH.
        inversion H as [|p' ps' Hne _]; subst. now rewrite Hp in Hne. }
      apply Hnone. exact Hnodyn.
Qed.
